(** * Marine-engine anomaly pipeline: a shallow embedding of the batch stages

    The development follows
    [src/autoencoder_5_min_31_pipeline_with_full_mlflow_logging.py].
    Every stage of the pipeline is a function on a small data-frame model;
    calls into pandas, scikit-learn and OpenCV are either written out as
    executable reference functions (documented where they stand) or taken
    as section variables together with the part of their contract a proof
    needs.

    Numbers: a float64 cell is idealised as a rational ([Q]); the missing
    marker NaN is [None].  Every comparison with NaN is false, as in numpy. *)

From Stdlib Require Import QArith Qabs Qround ZArith List Sorted Lia Lqa Bool.
From stdpp Require Import base gmap strings list.

Local Open Scope Q_scope.

(** ** Rational helpers *)

(** Strict comparison as a boolean, next to the library's [Qle_bool]. *)
Definition Qltb (x y : Q) : bool := negb (Qle_bool y x).

Lemma Qltb_lt (x y : Q) : Qltb x y = true <-> x < y.
Proof.
  unfold Qltb. rewrite negb_true_iff. split.
  - intros H. apply Qnot_le_lt. intros Hle.
    apply Qle_bool_iff in Hle. congruence.
  - intros H. destruct (Qle_bool y x) eqn:E; [|reflexivity].
    apply Qle_bool_iff in E. exfalso. apply (Qlt_not_le _ _ H E).
Qed.

Lemma Qltb_ge (x y : Q) : Qltb x y = false <-> y <= x.
Proof.
  unfold Qltb. rewrite negb_false_iff. apply Qle_bool_iff.
Qed.

(** ** Data frames *)

Module Frame.

(** A float cell; [None] is NaN. *)
Definition cell : Type := option Q.

(** One row: its index label (a timestamp in whole seconds) and its cells by
    column name. *)
Record Row : Type := mkRow { time : Z; vals : gmap string cell }.

(** A frame is its column names and its rows, in order. *)
Record DataFrame : Type := mkFrame { columns : list string; rows : list Row }.

(** [df[col]] at one row.  A cell the row does not hold reads as NaN. *)
Definition get (col : string) (r : Row) : cell :=
  match vals r !! col with
  | Some c => c
  | None => None
  end.

(** [df.loc[row, col] = np.nan] at one row. *)
Definition set_nan (col : string) (r : Row) : Row :=
  mkRow (time r) (<[col := None]> (vals r)).

(** [pd.notna] on a cell. *)
Definition notna (c : cell) : bool :=
  match c with Some _ => true | None => false end.

(** [df[mask]]: the rows whose mask entry is true, in order. *)
Fixpoint boolean_index {A : Type} (mask : list bool) (l : list A) : list A :=
  match mask, l with
  | m :: mask', x :: l' =>
      if m then x :: boolean_index mask' l' else boolean_index mask' l'
  | _, _ => []
  end.

(** [df.dropna(subset=cols)], default [how='any']: a row stays when none of
    the named cells is missing. *)
Definition dropna_any (cols : list string) (l : list Row) : list Row :=
  boolean_index (map (fun r => forallb (fun c => notna (get c r)) cols) l) l.

(** [df.dropna(how='all', subset=cols)]: a row stays when at least one of the
    named cells is present. *)
Definition dropna_all (cols : list string) (l : list Row) : list Row :=
  boolean_index (map (fun r => existsb (fun c => notna (get c r)) cols) l) l.

Lemma boolean_index_map {A : Type} (f : A -> bool) (l : list A) :
  boolean_index (map f l) l = List.filter f l.
Proof.
  induction l as [|x l IH]; simpl; [reflexivity|].
  destruct (f x); rewrite IH; reflexivity.
Qed.

Lemma boolean_index_length {A : Type} (mask : list bool) (l : list A) :
  (length (boolean_index mask l) <= length l)%nat.
Proof.
  revert l. induction mask as [|m mask IH]; intros [|x l]; simpl; try lia.
  destruct m; simpl; specialize (IH l); lia.
Qed.

End Frame.

Import Frame.

(** ** Range validation: [preprocess_remove_sensor_errors] *)

Module RangeValidation.

(** The static mapping from channel to its inclusive physical range. *)
Definition range_dict : list (string * (Q * Q)) :=
  [ ("ME COPT COND CSW IN TEMP", (0, 70));
    ("ME CYL. L.O IN TEMP.", (0, 90));
    ("ME EXH. GAS OUT TEMP.CYL. NO.1", (0.1, 600));
    ("ME EXH. GAS OUT TEMP.CYL. NO.2", (0.1, 600));
    ("ME EXH. GAS OUT TEMP.CYL. NO.3", (0.1, 600));
    ("ME EXH. GAS OUT TEMP.CYL. NO.4", (0.1, 600));
    ("ME EXH. GAS OUT TEMP.CYL. NO.5", (0.1, 600));
    ("ME EXH. GAS OUT TEMP.CYL. NO.6", (0.1, 600));
    ("ME T/C 1 EXH. GAS IN TEMP.", (0, 600));
    ("ME T/C 1  EXH. GAS OUT TEMP.", (0, 500));
    ("ME F.O IN PRESS", (0, 10));
    ("ME F.O. IN TEMP.", (0, 150));
    ("ME J.C.W OUT HIGH TEMP SLD.CYL.1", (0, 90));
    ("ME J.C.W OUT HIGH TEMP SLD.CYL.2", (0, 90));
    ("ME J.C.W OUT HIGH TEMP SLD.CYL.3", (0, 90));
    ("ME J.C.W OUT HIGH TEMP SLD.CYL.4", (0, 90));
    ("ME J.C.W OUT HIGH TEMP SLD.CYL.5", (0, 90));
    ("ME J.C.W OUT HIGH TEMP SLD.CYL.6", (0, 90));
    ("ME J.C.W IN PRESS", (0, 0.7));
    ("ME L.O IN PRESS", (0, 0.6));
    ("ME L.O IN TEMP.", (0, 80));
    ("SCAV. AIR PRESS IN AIR RECEIVER", (-1, 3.5));
    ("ME SCAV. AIR TEMP.  IN SCAV.", (0, 60));
    ("ME SCAV. AIR FIRE DET. TEMP. HIGH PISTON CYL. NO.1 SLD", (15, 130));
    ("ME SCAV. AIR FIRE DET. TEMP. HIGH PISTON CYL. NO.2 SLD", (15, 130));
    ("ME SCAV. AIR FIRE DET. TEMP. HIGH PISTON CYL. NO.3 SLD", (15, 130));
    ("ME SCAV. AIR FIRE DET. TEMP. HIGH PISTON CYL. NO.4 SLD", (15, 130));
    ("ME SCAV. AIR FIRE DET. TEMP. HIGH PISTON CYL. NO.5 SLD", (15, 130));
    ("ME SCAV. AIR FIRE DET. TEMP. HIGH PISTON CYL. NO.6 SLD", (15, 130));
    ("ME SHAFT POWER", (0, 9000));
    ("ME RPM", (-100, 99)) ].

(** One entry of [(df[col] < min_val) | (df[col] > max_val)]. *)
Definition out_of_range (min_val max_val : Q) (c : cell) : bool :=
  match c with
  | Some x => Qltb x min_val || Qltb max_val x
  | None => false
  end.

(** [int(mask.sum())]. *)
Definition mask_sum (mask : list bool) : nat :=
  length (List.filter (fun b : bool => b) mask).

(** [updated_df.loc[mask, col] = np.nan]; the mask has one entry per row. *)
Fixpoint loc_set_nan (mask : list bool) (col : string) (l : list Row) : list Row :=
  match mask, l with
  | m :: mask', r :: l' =>
      (if m then set_nan col r else r) :: loc_set_nan mask' col l'
  | _, _ => l
  end.

(** What the loop leaves behind: the frame, the [oor_count__<col>] metrics in
    the order they were logged, and the running total. *)
Definition outcome : Type := DataFrame * list (string * nat) * nat.

(** The loop over [range_dict.items()].  [updated_df[col]] raises a KeyError
    for a column the frame does not have: [None]. *)
Fixpoint validate_loop (rd : list (string * (Q * Q))) (updated_df : DataFrame)
    (log : list (string * nat)) (total_replaced : nat) : option outcome :=
  match rd with
  | [] => Some (updated_df, log, total_replaced)
  | (col, (min_val, max_val)) :: rd' =>
      if bool_decide (col ∈ columns updated_df) then
        let out_of_range_mask :=
          map (fun r => out_of_range min_val max_val (get col r)) (rows updated_df) in
        let count := mask_sum out_of_range_mask in
        validate_loop rd'
          (mkFrame (columns updated_df)
                   (loc_set_nan out_of_range_mask col (rows updated_df)))
          (log ++ [(col, count)]) (total_replaced + count)
      else None
  end.

(** The step.  The frame arrives numeric (ingestion already coerced every
    column with [pd.to_numeric]), so the leading [to_numeric] pass leaves
    each cell as it is. *)
Definition preprocess_remove_sensor_errors (updated_df : DataFrame) : option outcome :=
  validate_loop range_dict updated_df [] 0%nat.

(** The effect of one range on one row, and of a whole mapping. *)
Definition clip (col : string) (min_val max_val : Q) (r : Row) : Row :=
  if out_of_range min_val max_val (get col r) then set_nan col r else r.

Definition clip_all (rd : list (string * (Q * Q))) (r : Row) : Row :=
  fold_left (fun acc e => clip e.1 e.2.1 e.2.2 acc) rd r.

(** A frame that holds every validated channel. *)
Definition has_channels (rd : list (string * (Q * Q))) (df : DataFrame) : Prop :=
  ∀ col, col ∈ rd.*1 → col ∈ columns df.

(** The log of a pass that found nothing to replace. *)
Definition zero_log (rd : list (string * (Q * Q))) : list (string * nat) :=
  map (fun e => (e.1, 0%nat)) rd.


(** *** Cell-level facts *)

Lemma get_set_nan (c col : string) (r : Row) :
  get c (set_nan col r) = if decide (col = c) then None else get c r.
Proof.
  unfold get, set_nan; simpl. rewrite lookup_insert.
  destruct (decide (col = c)); reflexivity.
Qed.

Lemma time_clip (col : string) (lo hi : Q) (r : Row) :
  time (clip col lo hi r) = time r.
Proof. unfold clip. destruct (out_of_range lo hi (get col r)); reflexivity. Qed.

Lemma get_clip_same (col : string) (lo hi : Q) (r : Row) :
  get col (clip col lo hi r) =
  if out_of_range lo hi (get col r) then None else get col r.
Proof.
  unfold clip. destruct (out_of_range lo hi (get col r)); [|reflexivity].
  rewrite get_set_nan. destruct (decide (col = col)); congruence.
Qed.

Lemma get_clip_other (c col : string) (lo hi : Q) (r : Row) :
  col ≠ c → get c (clip col lo hi r) = get c r.
Proof.
  intros Hne. unfold clip. destruct (out_of_range lo hi (get col r)); [|reflexivity].
  rewrite get_set_nan. destruct (decide (col = c)); congruence.
Qed.

Lemma out_of_range_false_iff (lo hi : Q) (v : Q) :
  out_of_range lo hi (Some v) = false <-> lo <= v <= hi.
Proof.
  simpl. rewrite orb_false_iff, !Qltb_ge. tauto.
Qed.

Lemma out_of_range_clipped (lo hi : Q) (c : cell) :
  out_of_range lo hi (if out_of_range lo hi c then None else c) = false.
Proof. destruct (out_of_range lo hi c) eqn:E; [reflexivity|exact E]. Qed.

Lemma loc_set_nan_clip (col : string) (lo hi : Q) (l : list Row) :
  loc_set_nan (map (fun r => out_of_range lo hi (get col r)) l) col l =
  map (clip col lo hi) l.
Proof.
  induction l as [|r l IH]; simpl; [reflexivity|].
  rewrite IH. reflexivity.
Qed.

Lemma mask_sum_all_false {A : Type} (f : A → bool) (l : list A) :
  (∀ x, x ∈ l → f x = false) → mask_sum (map f l) = 0%nat.
Proof.
  unfold mask_sum. induction l as [|x l IH]; intros H; simpl; [reflexivity|].
  rewrite (H x) by constructor. apply IH. intros y Hy. apply H. by constructor.
Qed.

Lemma map_clip_id (col : string) (lo hi : Q) (l : list Row) :
  (∀ r, r ∈ l → out_of_range lo hi (get col r) = false) →
  map (clip col lo hi) l = l.
Proof.
  induction l as [|r l IH]; intros H; simpl; [reflexivity|].
  unfold clip at 1. rewrite (H r) by constructor. f_equal.
  apply IH. intros y Hy. apply H. by constructor.
Qed.

(** *** The loop, row by row *)

Lemma clip_all_cons (e : string * (Q * Q)) (rd : list (string * (Q * Q))) (r : Row) :
  clip_all (e :: rd) r = clip_all rd (clip e.1 e.2.1 e.2.2 r).
Proof. reflexivity. Qed.

Lemma time_clip_all (rd : list (string * (Q * Q))) (r : Row) :
  time (clip_all rd r) = time r.
Proof.
  revert r. induction rd as [|e rd IH]; intros r; [reflexivity|].
  rewrite clip_all_cons, IH. apply time_clip.
Qed.

Lemma get_clip_all_other (c : string) (rd : list (string * (Q * Q))) (r : Row) :
  c ∉ rd.*1 → get c (clip_all rd r) = get c r.
Proof.
  revert r. induction rd as [|[col [lo hi]] rd IH]; intros r Hc; [reflexivity|].
  rewrite clip_all_cons. simpl in *. apply not_elem_of_cons in Hc as [Hne Hc].
  rewrite IH by exact Hc. apply get_clip_other. congruence.
Qed.

Lemma get_clip_all_in (c : string) (lo hi : Q) (rd : list (string * (Q * Q))) (r : Row) :
  NoDup rd.*1 → (c, (lo, hi)) ∈ rd →
  get c (clip_all rd r) = if out_of_range lo hi (get c r) then None else get c r.
Proof.
  revert r. induction rd as [|[col [lo' hi']] rd IH]; intros r Hnd Hin.
  { by apply elem_of_nil in Hin. }
  simpl in Hnd. apply NoDup_cons in Hnd as [Hfresh Hnd].
  rewrite clip_all_cons. simpl.
  apply elem_of_cons in Hin as [Heq | Hin].
  - inversion Heq; subst col lo' hi'.
    rewrite get_clip_all_other by exact Hfresh. apply get_clip_same.
  - rewrite IH by assumption.
    assert (col ≠ c) as Hne.
    { intros ->. apply Hfresh. apply list_elem_of_fmap. by exists (c, (lo, hi)). }
    rewrite get_clip_other by exact Hne. reflexivity.
Qed.

Lemma validate_loop_rows (rd : list (string * (Q * Q))) (df : DataFrame)
    (log : list (string * nat)) (total : nat) :
  has_channels rd df →
  ∃ log' total',
    validate_loop rd df log total =
    Some (mkFrame (columns df) (map (clip_all rd) (rows df)), log', total').
Proof.
  revert df log total.
  induction rd as [|[col [lo hi]] rd IH]; intros df log total Hch.
  - exists log, total. simpl. rewrite map_id. by destruct df.
  - simpl. rewrite bool_decide_eq_true_2.
    2:{ apply Hch. simpl. by constructor. }
    rewrite loc_set_nan_clip.
    edestruct (IH (mkFrame (columns df) (map (clip col lo hi) (rows df)))) as (log' & total' & ->).
    { intros c Hc. simpl. apply Hch. simpl. by constructor. }
    exists log', total'. simpl. rewrite map_map. reflexivity.
Qed.

Lemma validate_loop_clean (rd : list (string * (Q * Q))) (df : DataFrame)
    (log : list (string * nat)) (total : nat) :
  has_channels rd df →
  (∀ r e, r ∈ rows df → e ∈ rd → out_of_range e.2.1 e.2.2 (get e.1 r) = false) →
  validate_loop rd df log total = Some (df, log ++ zero_log rd, total).
Proof.
  revert log total.
  induction rd as [|[col [lo hi]] rd IH]; intros log total Hch Hclean.
  - simpl. by rewrite app_nil_r.
  - simpl. rewrite bool_decide_eq_true_2.
    2:{ apply Hch. simpl. by constructor. }
    assert (∀ r, r ∈ rows df → out_of_range lo hi (get col r) = false) as Hcol.
    { intros r Hr. apply (Hclean r (col, (lo, hi)) Hr). by constructor. }
    rewrite loc_set_nan_clip, (map_clip_id _ _ _ _ Hcol), (mask_sum_all_false _ _ Hcol).
    replace (mkFrame (columns df) (rows df)) with df by (by destruct df).
    rewrite IH.
    + rewrite <- app_assoc, Nat.add_0_r. reflexivity.
    + intros c Hc. apply Hch. simpl. by constructor.
    + intros r e Hr He. apply Hclean; [exact Hr|]. by constructor.
Qed.

Lemma range_dict_NoDup : NoDup range_dict.*1.
Proof. apply (bool_decide_unpack _). vm_compute. exact I. Qed.


Lemma validate_loop_Some_channels (rd : list (string * (Q * Q))) (df : DataFrame)
    (log : list (string * nat)) (total : nat) (o : outcome) :
  validate_loop rd df log total = Some o → has_channels rd df.
Proof.
  revert df log total.
  induction rd as [|[col [lo hi]] rd IH]; intros df log total Hrun c Hc.
  { by apply elem_of_nil in Hc. }
  simpl in Hrun, Hc.
  destruct (bool_decide (col ∈ columns df)) eqn:Hcol; [|discriminate].
  apply bool_decide_eq_true_1 in Hcol.
  apply elem_of_cons in Hc as [-> | Hc]; [exact Hcol|].
  apply IH in Hrun. exact (Hrun c Hc).
Qed.

(** A small frame over the validated channels, used to run the step.  Only
    three channels carry readings; every other cell is missing. *)
Definition sample_row (t : Z) (power rpm lo_press : cell) : Row :=
  mkRow t (<["ME SHAFT POWER" := power]>
           (<["ME RPM" := rpm]> (<["ME L.O IN PRESS" := lo_press]> ∅))).

Definition sample_frame : DataFrame :=
  mkFrame range_dict.*1
    [ sample_row 0 (Some 5000) (Some 80) (Some 0.4);
      sample_row 300 (Some 9500) (Some (-5)) (Some 0.7);
      sample_row 600 None (Some 120) (Some 0.6) ].

Definition sample_validated : DataFrame :=
  mkFrame range_dict.*1
    [ sample_row 0 (Some 5000) (Some 80) (Some 0.4);
      sample_row 300 None (Some (-5)) None;
      sample_row 600 None None (Some 0.6) ].

Definition sample_log : list (string * nat) :=
  map (fun e => (e.1, if bool_decide (e.1 ∈ ["ME SHAFT POWER"; "ME RPM"; "ME L.O IN PRESS"])
                      then 1%nat else 0%nat))
      range_dict.

Example sample_run :
  preprocess_remove_sensor_errors sample_frame =
  Some (sample_validated, sample_log, 3%nat).
Proof. vm_compute. reflexivity. Qed.

(** C5.  For every frame that holds the validated channels the step returns,
    with the same columns and the same rows in the same order (same index
    labels, none dropped); in the result every non-missing value of a
    validated channel lies inside that channel's inclusive range, a value
    that was inside the range is kept as it was, a validated cell is either
    the old cell or the missing marker, and no other cell changes. *)
Theorem range_validation_sound (df : DataFrame) :
  has_channels range_dict df →
  ∃ df' log total,
    preprocess_remove_sensor_errors df = Some (df', log, total) ∧
    columns df' = columns df ∧
    length (rows df') = length (rows df) ∧
    ∀ i r, rows df !! i = Some r →
      ∃ r', rows df' !! i = Some r' ∧ time r' = time r ∧
        (∀ col, col ∉ range_dict.*1 → get col r' = get col r) ∧
        ∀ col lo hi, (col, (lo, hi)) ∈ range_dict →
          (∀ v, get col r' = Some v → lo <= v <= hi) ∧
          (∀ v, get col r = Some v → lo <= v <= hi → get col r' = Some v) ∧
          (get col r' = get col r ∨ get col r' = None).
Proof.
  intros Hch. unfold preprocess_remove_sensor_errors.
  destruct (validate_loop_rows range_dict df [] 0%nat Hch) as (log & total & Hrun).
  eexists _, log, total. split; [exact Hrun|]. cbn [columns rows].
  split; [reflexivity|]. split; [apply length_map|].
  intros i r Hr. exists (clip_all range_dict r).
  split; [by rewrite list_lookup_fmap, Hr|].
  split; [apply time_clip_all|].
  split; [intros col Hcol; by apply get_clip_all_other|].
  intros col lo hi Hin.
  rewrite (get_clip_all_in col lo hi range_dict r range_dict_NoDup Hin).
  destruct (out_of_range lo hi (get col r)) eqn:Hoor.
  - split; [intros v Hv; discriminate|]. split; [|by right].
    intros v Hv Hrange. rewrite Hv in Hoor.
    apply out_of_range_false_iff in Hrange. congruence.
  - split; [|split; [tauto|by left]].
    intros v Hv. rewrite Hv in Hoor. by apply out_of_range_false_iff.
Qed.

Lemma range_validation_sound_witness :
  ∃ df' log total,
    preprocess_remove_sensor_errors sample_frame = Some (df', log, total) ∧
    columns df' = columns sample_frame ∧
    length (rows df') = length (rows sample_frame) ∧
    ∀ i r, rows sample_frame !! i = Some r →
      ∃ r', rows df' !! i = Some r' ∧ time r' = time r ∧
        (∀ col, col ∉ range_dict.*1 → get col r' = get col r) ∧
        ∀ col lo hi, (col, (lo, hi)) ∈ range_dict →
          (∀ v, get col r' = Some v → lo <= v <= hi) ∧
          (∀ v, get col r = Some v → lo <= v <= hi → get col r' = Some v) ∧
          (get col r' = get col r ∨ get col r' = None).
Proof.
  apply (range_validation_sound sample_frame).
  intros col Hcol. exact Hcol.
Defined.

(** C9.  Range validation is idempotent: run on its own output it returns
    that output unchanged, logs a replacement count of zero for every
    channel, and a total of zero. *)
Theorem range_validation_idempotent (df df1 : DataFrame)
    (log1 : list (string * nat)) (total1 : nat) :
  preprocess_remove_sensor_errors df = Some (df1, log1, total1) →
  preprocess_remove_sensor_errors df1 = Some (df1, zero_log range_dict, 0%nat).
Proof.
  unfold preprocess_remove_sensor_errors. intros Hrun.
  pose proof (validate_loop_Some_channels _ _ _ _ _ Hrun) as Hch.
  destruct (validate_loop_rows range_dict df [] 0%nat Hch) as (log & total & Hrows).
  rewrite Hrows in Hrun. injection Hrun as <- _ _.
  apply (validate_loop_clean range_dict _ [] 0%nat).
  - exact Hch.
  - intros r' [col [lo hi]] Hr' He. cbn [rows fst snd] in *.
    apply list_elem_of_fmap in Hr' as (r & -> & _).
    rewrite (get_clip_all_in col lo hi range_dict r range_dict_NoDup He).
    apply out_of_range_clipped.
Qed.

Lemma range_validation_idempotent_witness :
  preprocess_remove_sensor_errors sample_validated =
  Some (sample_validated, zero_log range_dict, 0%nat).
Proof.
  apply (range_validation_idempotent sample_frame sample_validated sample_log 3).
  vm_compute. reflexivity.
Defined.


(** *** What the step logs, and when it raises *)

(** How many rows of a frame hold an out-of-range value under one entry of
    the mapping. *)
Definition oor_count (e : string * (Q * Q)) (l : list Row) : nat :=
  mask_sum (map (fun r => out_of_range e.2.1 e.2.2 (get e.1 r)) l).

Lemma oor_count_clip_other (e : string * (Q * Q)) (col : string) (lo hi : Q)
    (l : list Row) :
  col ≠ e.1 → oor_count e (map (clip col lo hi) l) = oor_count e l.
Proof.
  intros Hne. unfold oor_count. rewrite map_map. f_equal.
  apply map_ext. intros r. by rewrite get_clip_other.
Qed.

Lemma validate_loop_log (rd : list (string * (Q * Q))) (df df' : DataFrame)
    (log log' : list (string * nat)) (total total' : nat) :
  NoDup rd.*1 →
  validate_loop rd df log total = Some (df', log', total') →
  log' = log ++ map (fun e => (e.1, oor_count e (rows df))) rd ∧
  total' = (total + list_sum (map (fun e => oor_count e (rows df)) rd))%nat.
Proof.
  revert df log total.
  induction rd as [|[col [lo hi]] rd IH]; intros df log total Hnd Hrun.
  { simpl in Hrun. injection Hrun as <- <- <-.
    simpl. by rewrite app_nil_r, Nat.add_0_r. }
  cbn [fmap list_fmap fst] in Hnd. apply NoDup_cons in Hnd as [Hfresh Hnd].
  cbn [validate_loop] in Hrun.
  destruct (bool_decide (col ∈ columns df)); [|discriminate].
  rewrite loc_set_nan_clip in Hrun.
  destruct (IH _ _ _ Hnd Hrun) as [E1 E2]. rewrite E1, E2. clear IH E1 E2 Hrun.
  cbn [rows map list_sum fst snd].
  assert (∀ e, e ∈ rd →
            oor_count e (map (clip col lo hi) (rows df)) = oor_count e (rows df)) as Hsame.
  { intros e He. apply oor_count_clip_other. intros ->. apply Hfresh.
    apply list_elem_of_fmap. by exists e. }
  split.
  - rewrite <- app_assoc. cbn [app]. do 2 f_equal.
    apply map_ext_in. intros e He. f_equal. apply Hsame. by apply list_elem_of_In.
  - rewrite <- Nat.add_assoc. f_equal.
    replace (map (fun e => oor_count e (map (clip col lo hi) (rows df))) rd)
      with (map (fun e => oor_count e (rows df)) rd); [reflexivity|].
    apply map_ext_in. intros e He. symmetry. apply Hsame. by apply list_elem_of_In.
Qed.

(** X1.  The metric logged for a channel is the number of rows whose value,
    as the step received it, lies outside the channel's range, one metric per
    channel in the order of the mapping; [total_values_replaced] is the sum
    of these counts. *)
Theorem replaced_counts (df df' : DataFrame) (log : list (string * nat)) (total : nat) :
  preprocess_remove_sensor_errors df = Some (df', log, total) →
  log = map (fun e => (e.1, oor_count e (rows df))) range_dict ∧
  total = list_sum (map snd log).
Proof.
  unfold preprocess_remove_sensor_errors. intros Hrun.
  destruct (validate_loop_log _ _ _ _ _ _ _ range_dict_NoDup Hrun) as [-> ->].
  split; [reflexivity|]. cbn [app Nat.add]. by rewrite map_map.
Qed.

Lemma replaced_counts_witness :
  sample_log = map (fun e => (e.1, oor_count e (rows sample_frame))) range_dict ∧
  3%nat = list_sum (map snd sample_log).
Proof.
  apply (replaced_counts sample_frame sample_validated sample_log 3).
  vm_compute. reflexivity.
Defined.

(** X2.  The step raises (a KeyError) exactly when the frame lacks one of the
    validated channels; what the cells hold never makes it raise. *)
Theorem missing_channel_raises (df : DataFrame) :
  preprocess_remove_sensor_errors df = None ↔
  ∃ col, col ∈ range_dict.*1 ∧ col ∉ columns df.
Proof.
  unfold preprocess_remove_sensor_errors.
  generalize range_dict as rd. intros rd. split.
  - intros Hnone.
    destruct (decide (Forall (fun col => col ∈ columns df) rd.*1)) as [Hall | Hnot].
    + exfalso. rewrite Forall_forall in Hall.
      destruct (validate_loop_rows rd df [] 0%nat Hall) as (l & t & Hrun).
      rewrite Hrun in Hnone. discriminate.
    + apply not_Forall_Exists in Hnot; [|intros col; apply _].
      apply Exists_exists in Hnot as (col & Hin & Hout). by exists col.
  - intros (col & Hin & Hout).
    destruct (validate_loop rd df [] 0%nat) as [o|] eqn:Hrun; [|reflexivity].
    exfalso. apply Hout. by apply (validate_loop_Some_channels _ _ _ _ _ Hrun).
Qed.

End RangeValidation.

(** ** Resampling and alignment: [data_preprocessor] *)

Module Preprocessor.

(** The model starts at [input_df] as line 456 leaves it (columns selected,
    [dataTime] parsed, empty rows and duplicates dropped); [dataTime] is the
    row's [time], in whole seconds. *)

(** [Series.dt.seconds]: the seconds field of a timedelta normalised to
    (days, seconds, microseconds) with [0 <= seconds < 86400]; it is not the
    total number of seconds. *)
Definition dt_seconds (delta : Z) : Z := (delta mod 86400)%Z.

(** [Series.diff()]: the first entry has no predecessor (NaT). *)
Fixpoint diff_from (prev : Z) (ts : list Z) : list (option Z) :=
  match ts with
  | [] => []
  | t :: ts' => Some (t - prev)%Z :: diff_from t ts'
  end.

Definition diff (ts : list Z) : list (option Z) :=
  match ts with
  | [] => []
  | t :: ts' => None :: diff_from t ts'
  end.

(** [diffs = input_df['dataTime'].diff().dt.seconds]; NaT reads as NaN. *)
Definition diffs (input_df : list Row) : list (option Z) :=
  map (option_map dt_seconds) (diff (map time input_df)).

(** [diffs < 250] and [diffs > 250], entry by entry; NaN compares false. *)
Definition lt_250 (d : option Z) : bool :=
  match d with Some s => (s <? 250)%Z | None => false end.

Definition gt_250 (d : option Z) : bool :=
  match d with Some s => (250 <? s)%Z | None => false end.

Definition input_df_1min (input_df : list Row) : list Row :=
  boolean_index (map lt_250 (diffs input_df)) input_df.

Definition input_df_15min (input_df : list Row) : list Row :=
  boolean_index (map gt_250 (diffs input_df)) input_df.

(** The 5-minute bin of a timestamp (['5T'], left-closed, left-labelled). *)
Definition bucket (t : Z) : Z := (t / 300)%Z.

(** The bins [resample] walks: every bin from the earliest row's to the
    latest row's, empty ones included. *)
Definition bins (ts : list Z) : list Z :=
  match ts with
  | [] => []
  | t :: ts' =>
      let lo := bucket (fold_right Z.min t ts') in
      let hi := bucket (fold_right Z.max t ts') in
      map (fun k => (lo + Z.of_nat k)%Z) (seq 0 (Z.to_nat (hi - lo + 1)))
  end.

(** [sort_index(ascending=True)], as a stable insertion sort on the label:
    a row is put in front of the rows that came after it, so rows of equal
    label keep their order. *)
Fixpoint insert_by_time (r : Row) (l : list Row) : list Row :=
  match l with
  | [] => [r]
  | x :: l' =>
      if (time r <=? time x)%Z then r :: x :: l' else x :: insert_by_time r l'
  end.

Definition sort_index (l : list Row) : list Row :=
  fold_right insert_by_time [] l.

(** The two channels of line 471. *)
Definition ref_temp : string := "ME F.O. IN TEMP.".
Definition rpm : string := "ME RPM".

(** Lines 470-471: concatenate, then [dropna(subset=[...])]. *)
Definition concat_dropna (low_freq resampled : list Row) : list Row :=
  dropna_any [ref_temp; rpm] (low_freq ++ resampled).

(** The drop rule as the specification words it (a row goes only when it is
    missing both readings), kept apart to be compared with [concat_dropna]. *)
Definition concat_drop_missing_both (low_freq resampled : list Row) : list Row :=
  List.filter (fun r => notna (get ref_temp r) || notna (get rpm r))
              (low_freq ++ resampled).

Section WithSampler.

(** [x.sample(1, random_state=42)]: with the seed fixed, the position drawn
    depends on the group's length only. *)
Variable pick : nat → nat.

Definition sample_1 (x : list Row) : option Row :=
  x !! (pick (length x) mod length x)%nat.

(** [resample('5T').apply(lambda x: x.sample(1, ...) if len(x) > 0 else None)]:
    one drawn row per non-empty bin, labelled with the bin's start; an empty
    bin gives an all-NaN row, which the [dropna(how='all')] that follows
    removes together with any drawn row that holds no reading. *)
Definition resample_5T (cols : list string) (l : list Row) : list Row :=
  dropna_all cols
    (omap (fun k =>
             let x := List.filter (fun r => (bucket (time r) =? k)%Z) l in
             match sample_1 x with
             | Some r => Some (mkRow (300 * k) (vals r))
             | None => None
             end)
          (bins (map time l))).

(** Lines 459-472. *)
Definition data_preprocessor (input_df : DataFrame) : DataFrame :=
  let min1_resampled :=
    resample_5T (columns input_df) (input_df_1min (rows input_df)) in
  let updated_df := concat_dropna (input_df_15min (rows input_df)) min1_resampled in
  mkFrame (columns input_df) (sort_index updated_df).


(** *** Gaps and masks *)

Lemma diff_from_lookup (ts : list Z) (prev : Z) (i : nat) (p t : Z) :
  (prev :: ts) !! i = Some p → ts !! i = Some t →
  diff_from prev ts !! i = Some (Some (t - p)%Z).
Proof.
  revert prev i. induction ts as [|t0 ts IH]; intros prev i Hp Ht.
  { by rewrite lookup_nil in Ht. }
  destruct i as [|i]; simpl in *.
  - congruence.
  - apply IH; assumption.
Qed.

Lemma diffs_first (r : Row) (l : list Row) :
  diffs (r :: l) !! 0%nat = Some None.
Proof. reflexivity. Qed.

Lemma diffs_next (l : list Row) (j : nat) (p r : Row) :
  l !! j = Some p → l !! S j = Some r →
  diffs l !! S j = Some (Some (dt_seconds (time r - time p))).
Proof.
  intros Hp Hr. unfold diffs. rewrite list_lookup_fmap.
  destruct l as [|r0 l]; [by rewrite lookup_nil in Hp|].
  cbn [map diff]. rewrite lookup_cons.
  rewrite (diff_from_lookup (map time l) (time r0) j (time p) (time r)).
  - reflexivity.
  - change (time r0 :: map time l) with (map time (r0 :: l)).
    by rewrite list_lookup_fmap, Hp.
  - rewrite list_lookup_fmap. rewrite lookup_cons in Hr. by rewrite Hr.
Qed.

Lemma diffs_times (l l' : list Row) :
  map time l = map time l' → diffs l = diffs l'.
Proof. unfold diffs. by intros ->. Qed.

Lemma map_time_insert (l : list Row) (i : nat) (r r' : Row) :
  l !! i = Some r → time r' = time r → map time (<[i := r']> l) = map time l.
Proof.
  intros Hr Ht. rewrite list_fmap_insert, Ht.
  apply list_insert_id. by rewrite list_lookup_fmap, Hr.
Qed.

Lemma boolean_index_insert_false {A : Type} (mask : list bool) (l : list A)
    (i : nat) (x : A) :
  mask !! i = Some false →
  boolean_index mask (<[i := x]> l) = boolean_index mask l.
Proof.
  revert l i. induction mask as [|m mask IH]; intros l i Hm.
  { by rewrite lookup_nil in Hm. }
  destruct l as [|y l]; [reflexivity|].
  destruct i as [|i]; simpl in *.
  - injection Hm as ->. reflexivity.
  - rewrite (IH l i Hm). reflexivity.
Qed.

(** Within one day the seconds field is the gap itself. *)
Lemma dt_seconds_small (gap : Z) :
  (0 <= gap < 86400)%Z → dt_seconds gap = gap.
Proof. intros H. unfold dt_seconds. by apply Z.mod_small. Qed.

Lemma cadence_within_a_day (gap : Z) :
  (0 <= gap < 86400)%Z →
  lt_250 (Some (dt_seconds gap)) = (gap <? 250)%Z ∧
  gt_250 (Some (dt_seconds gap)) = (250 <? gap)%Z.
Proof. intros H. rewrite (dt_seconds_small gap H). split; reflexivity. Qed.

Lemma concat_dropna_filter (low_freq resampled : list Row) :
  concat_dropna low_freq resampled =
  List.filter (fun r => notna (get ref_temp r) && notna (get rpm r))
              (low_freq ++ resampled).
Proof.
  unfold concat_dropna, dropna_any. rewrite boolean_index_map.
  apply List.filter_ext. intros r. simpl. by rewrite andb_true_r.
Qed.

Lemma notna_true (c : cell) : notna c = true ↔ c ≠ None.
Proof. destruct c; simpl; split; congruence. Qed.


(** C10.  The cadence split is not exhaustive.  The first row (no
    predecessor) and any row exactly 250 seconds after its predecessor fail
    both [diffs < 250] and [diffs > 250]; such a row is in neither partition,
    and the stage's output does not depend on its readings: whatever cells
    stand in that row, the output is the same. *)
Theorem cadence_partition_not_exhaustive (input_df : DataFrame) (i : nat) (r : Row) :
  rows input_df !! i = Some r →
  (i = 0%nat ∨
   ∃ j p, i = S j ∧ rows input_df !! j = Some p ∧ (time r - time p = 250)%Z) →
  map lt_250 (diffs (rows input_df)) !! i = Some false ∧
  map gt_250 (diffs (rows input_df)) !! i = Some false ∧
  ∀ cells : gmap string cell,
    data_preprocessor
      (mkFrame (columns input_df) (<[i := mkRow (time r) cells]> (rows input_df))) =
    data_preprocessor input_df.
Proof.
  intros Hr Hgap.
  assert (diffs (rows input_df) !! i = Some None ∨
          diffs (rows input_df) !! i = Some (Some 250%Z)) as Hd.
  { destruct Hgap as [-> | (j & p & -> & Hp & Ht)].
    - left. destruct (rows input_df) as [|r0 l]; [by rewrite lookup_nil in Hr|].
      apply diffs_first.
    - right. rewrite (diffs_next _ j p r Hp Hr), Ht. reflexivity. }
  assert (map lt_250 (diffs (rows input_df)) !! i = Some false) as H1.
  { rewrite list_lookup_fmap. destruct Hd as [-> | ->]; reflexivity. }
  assert (map gt_250 (diffs (rows input_df)) !! i = Some false) as H15.
  { rewrite list_lookup_fmap. destruct Hd as [-> | ->]; reflexivity. }
  split; [exact H1|]. split; [exact H15|].
  intros cells. unfold data_preprocessor, input_df_1min, input_df_15min.
  cbn [rows columns].
  rewrite (diffs_times (<[i := mkRow (time r) cells]> (rows input_df)) (rows input_df))
    by (by apply (map_time_insert _ _ r)).
  rewrite !boolean_index_insert_false by assumption.
  reflexivity.
Qed.

(** C3, as the code has it.  At the merge (lines 470-471) the rows kept are
    exactly the rows of the concatenation that hold both the reference
    temperature and the RPM reading, in their order: a row is dropped as soon
    as one of the two is missing. *)
Theorem concat_dropna_keeps_complete_rows (low_freq resampled : list Row) :
  concat_dropna low_freq resampled =
    List.filter (fun r => notna (get ref_temp r) && notna (get rpm r))
                (low_freq ++ resampled) ∧
  ∀ r, r ∈ concat_dropna low_freq resampled ↔
       r ∈ low_freq ++ resampled ∧ get ref_temp r ≠ None ∧ get rpm r ≠ None.
Proof.
  split; [apply concat_dropna_filter|].
  intros r. rewrite concat_dropna_filter, !list_elem_of_In, List.filter_In.
  rewrite andb_true_iff, !notna_true. reflexivity.
Qed.

End WithSampler.

(** A draw that always takes the first row of its group. *)
Definition pick_first (n : nat) : nat := 0%nat.

Definition reading (t : Z) (temp revs : cell) : Row :=
  mkRow t (<[ref_temp := temp]> (<[rpm := revs]> ∅)).

(** Four rows: the first, one exactly 250 s later, one a minute later, and
    one a quarter of an hour later. *)
Definition gap_frame : DataFrame :=
  mkFrame [ref_temp; rpm]
    [ reading 0 (Some 120) (Some 80); reading 250 (Some 121) (Some 81);
      reading 310 (Some 122) (Some 82); reading 1210 (Some 123) (Some 83) ].

Example gap_frame_run :
  rows (data_preprocessor pick_first gap_frame) =
  [ reading 300 (Some 122) (Some 82); reading 1210 (Some 123) (Some 83) ].
Proof. vm_compute. reflexivity. Qed.

Lemma cadence_partition_not_exhaustive_witness :
  map lt_250 (diffs (rows gap_frame)) !! 1%nat = Some false ∧
  map gt_250 (diffs (rows gap_frame)) !! 1%nat = Some false ∧
  ∀ cells : gmap string cell,
    data_preprocessor pick_first
      (mkFrame (columns gap_frame)
         (<[1%nat := mkRow (time (reading 250 (Some 121) (Some 81))) cells]>
            (rows gap_frame))) =
    data_preprocessor pick_first gap_frame.
Proof.
  apply (cadence_partition_not_exhaustive pick_first gap_frame 1
           (reading 250 (Some 121) (Some 81))).
  - reflexivity.
  - right. exists 0%nat, (reading 0 (Some 120) (Some 80)).
    split; [reflexivity|]. split; reflexivity.
Defined.

(** C3, as the specification words it, fails: a low-frequency row that holds
    the reference temperature and lacks only the RPM reading is dropped by
    the merge, where the "missing both" rule would keep it. *)
Lemma missing_one_reading_is_dropped :
  get ref_temp (reading 900 (Some 120) None) = Some 120 ∧
  get rpm (reading 900 (Some 120) None) = None ∧
  concat_dropna [reading 900 (Some 120) None] [] = [] ∧
  concat_drop_missing_both [reading 900 (Some 120) None] [] =
    [reading 900 (Some 120) None].
Proof. repeat split. Qed.

(** Three rows at 0 s, 900 s and 900 s + 1 day + 60 s. *)
Definition day_gap_frame : DataFrame :=
  mkFrame [ref_temp; rpm]
    [ reading 0 (Some 120) (Some 80); reading 900 (Some 121) (Some 81);
      reading 87360 (Some 122) (Some 82) ].

(** C4 at a gap of more than a day.  The last gap of [day_gap_frame] is
    86460 s, yet its seconds field is 60: the row passes [diffs < 250], fails
    [diffs > 250], lands in the high-frequency partition and leaves the stage
    relabelled to its 5-minute bin, where the claim has it in the
    low-frequency partition, passed through unchanged. *)
Lemma day_gap_is_high_frequency :
  diff (map time (rows day_gap_frame)) = [None; Some 900%Z; Some 86460%Z] ∧
  diffs (rows day_gap_frame) = [None; Some 900%Z; Some 60%Z] ∧
  input_df_1min (rows day_gap_frame) = [reading 87360 (Some 122) (Some 82)] ∧
  input_df_15min (rows day_gap_frame) = [reading 900 (Some 121) (Some 81)] ∧
  rows (data_preprocessor pick_first day_gap_frame) =
    [reading 900 (Some 121) (Some 81); reading 87300 (Some 122) (Some 82)].
Proof. repeat split. Qed.


(** *** What leaves the stage *)

Lemma insert_by_time_elem (r x : Row) (l : list Row) :
  x ∈ insert_by_time r l ↔ x = r ∨ x ∈ l.
Proof.
  induction l as [|y l IH]; simpl.
  - rewrite list_elem_of_singleton, elem_of_nil. tauto.
  - destruct (time r <=? time y)%Z.
    + rewrite !elem_of_cons. tauto.
    + rewrite !elem_of_cons, IH. tauto.
Qed.

Lemma sort_index_elem (x : Row) (l : list Row) : x ∈ sort_index l ↔ x ∈ l.
Proof.
  unfold sort_index. induction l as [|y l IH]; simpl; [reflexivity|].
  rewrite insert_by_time_elem, elem_of_cons, IH. reflexivity.
Qed.

Lemma sort_index_length (l : list Row) : length (sort_index l) = length l.
Proof.
  assert (∀ r k, length (insert_by_time r k) = S (length k)) as Hins.
  { intros r k. induction k as [|y k IH]; simpl; [reflexivity|].
    destruct (time r <=? time y)%Z; simpl; [reflexivity|by rewrite IH]. }
  unfold sort_index. induction l as [|y l IH]; simpl; [reflexivity|].
  by rewrite Hins, IH.
Qed.

(** Ascending by index label. *)
Definition by_time (a b : Row) : Prop := (time a <= time b)%Z.

Lemma insert_by_time_sorted (r : Row) (l : list Row) :
  StronglySorted by_time l → StronglySorted by_time (insert_by_time r l).
Proof.
  induction 1 as [|y l Hl IH Hy]; simpl.
  { constructor; constructor. }
  destruct (time r <=? time y)%Z eqn:E.
  - apply Z.leb_le in E. constructor; [by constructor|].
    constructor; [unfold by_time; lia|].
    eapply Forall_impl; [exact Hy|]. unfold by_time. simpl. lia.
  - apply Z.leb_gt in E. constructor; [exact IH|].
    apply Forall_forall. intros x Hx. apply insert_by_time_elem in Hx as [-> | Hx].
    + unfold by_time. lia.
    + rewrite Forall_forall in Hy. by apply Hy.
Qed.

Lemma sort_index_sorted (l : list Row) : StronglySorted by_time (sort_index l).
Proof.
  unfold sort_index. induction l as [|y l IH]; simpl; [constructor|].
  by apply insert_by_time_sorted.
Qed.

Lemma boolean_index_In {A : Type} (mask : list bool) (l : list A) (x : A) :
  x ∈ boolean_index mask l → x ∈ l.
Proof.
  revert l. induction mask as [|m mask IH]; intros [|y l] Hx; simpl in Hx;
    try (by apply elem_of_nil in Hx).
  destruct m.
  - apply elem_of_cons in Hx as [-> | Hx]; [constructor|].
    apply list_elem_of_further. by apply IH.
  - apply list_elem_of_further. by apply IH.
Qed.

Lemma bucket_bounds (t : Z) : (300 * bucket t <= t < 300 * bucket t + 300)%Z.
Proof.
  unfold bucket. pose proof (Z.mod_pos_bound t 300). pose proof (Z.div_mod t 300). lia.
Qed.

(** A resampled row is a high-frequency row under a new label: its cells are
    those of one row of the bin, its label is the start of that bin. *)
Lemma resample_5T_provenance (pick : nat → nat) (cols : list string)
    (l : list Row) (r : Row) :
  r ∈ resample_5T pick cols l →
  ∃ r0, r0 ∈ l ∧ vals r = vals r0 ∧ time r = (300 * bucket (time r0))%Z.
Proof.
  unfold resample_5T, dropna_all. intros Hr.
  apply boolean_index_In in Hr. apply list_elem_of_omap in Hr as (k & _ & Hk).
  destruct (sample_1 pick _) as [r0|] eqn:Hs; [|discriminate].
  injection Hk as <-. unfold sample_1 in Hs.
  apply list_elem_of_lookup_2 in Hs.
  apply list_elem_of_In, List.filter_In in Hs as [Hin Hb].
  apply Z.eqb_eq in Hb. exists r0. split; [by apply list_elem_of_In|].
  split; [reflexivity|]. simpl. by rewrite Hb.
Qed.

(** X6.  What the stage returns: the frame keeps its columns; its rows are
    in ascending order of their labels; every row holds both the reference
    temperature and the RPM reading; and every row is either a row of the
    low-frequency partition as it came, or a row of the high-frequency
    partition whose cells are untouched and whose label has been moved back
    to the start of its 5-minute bin (by less than 300 seconds). *)
Theorem data_preprocessor_output (pick : nat → nat) (input_df : DataFrame) :
  columns (data_preprocessor pick input_df) = columns input_df ∧
  StronglySorted by_time (rows (data_preprocessor pick input_df)) ∧
  ∀ r, r ∈ rows (data_preprocessor pick input_df) →
    get ref_temp r ≠ None ∧ get rpm r ≠ None ∧
    (r ∈ input_df_15min (rows input_df) ∨
     ∃ r0, r0 ∈ input_df_1min (rows input_df) ∧ vals r = vals r0 ∧
           (time r <= time r0 < time r + 300)%Z ∧ (time r mod 300 = 0)%Z).
Proof.
  unfold data_preprocessor. cbn [columns rows].
  split; [reflexivity|]. split; [apply sort_index_sorted|].
  intros r Hr. apply (proj1 (sort_index_elem _ _)) in Hr.
  rewrite concat_dropna_filter in Hr.
  apply list_elem_of_In, List.filter_In in Hr as [Hin Hboth].
  apply andb_true_iff in Hboth as [Ht Hrpm].
  apply (proj1 (notna_true _)) in Ht. apply (proj1 (notna_true _)) in Hrpm.
  split; [exact Ht|]. split; [exact Hrpm|].
  apply list_elem_of_In, elem_of_app in Hin as [Hlow | Hres]; [by left|right].
  apply resample_5T_provenance in Hres as (r0 & Hr0 & Hv & Htime).
  exists r0. split; [exact Hr0|]. split; [exact Hv|].
  pose proof (bucket_bounds (time r0)). rewrite Htime. split; [lia|].
  rewrite Z.mul_comm. apply Z.mod_mul. lia.
Qed.

End Preprocessor.

(** ** numpy helpers shared by the stages *)

Module Numpy.

Section Argmax.

Context {A : Type} (ltb : A → A → bool).

(** [np.argmax]: the index of the first maximal entry.  The scan keeps the
    best entry so far and moves only on a strictly larger one. *)
Fixpoint argmax_from (best_i : nat) (best : A) (i : nat) (l : list A) : nat :=
  match l with
  | [] => best_i
  | x :: l' =>
      if ltb best x then argmax_from i x (S i) l'
      else argmax_from best_i best (S i) l'
  end.

Definition argmax (l : list A) : nat :=
  match l with
  | [] => 0%nat
  | x :: l' => argmax_from 0 x 1 l'
  end.

End Argmax.

(** [np.bincount]: how often each value from [0] to the largest one occurs. *)
Definition bincount (l : list nat) : list nat :=
  match l with
  | [] => []
  | _ => map (fun v => count_occ Nat.eq_dec l v) (seq 0 (S (list_max l)))
  end.

(** [len(np.unique(a))]. *)
Definition n_unique (l : list nat) : nat := length (remove_dups l).

End Numpy.

(** ** Steady-state segmentation: [steady_state_extraction_core] *)

Module SteadyState.

Import Numpy.

Definition matrix (A : Type) : Type := list (list A).

(** [M[i, j]], with a default where the proofs read outside the matrix. *)
Definition entry {A : Type} (d : A) (M : matrix A) (i j : nat) : A :=
  nth j (nth i M []) d.

(** [np.zeros((r, r), dtype=int)]. *)
Definition zeros (r : nat) : matrix nat := repeat (repeat 0%nat r) r.

(** [C[i, j] += 1]; an index outside the matrix raises IndexError. *)
Definition bump (i j : nat) (C : matrix nat) : option (matrix nat) :=
  match C !! i with
  | Some row =>
      match row !! j with
      | Some c => Some (<[i := <[j := S c]> row]> C)
      | None => None
      end
  | None => None
  end.

(** The loop [for t in range(len(states)-1): C[states[t], states[t+1]] += 1]. *)
Fixpoint count_transitions (states : list nat) (C : matrix nat) : option (matrix nat) :=
  match states with
  | i :: rest =>
      match rest with
      | j :: _ =>
          match bump i j C with
          | Some C' => count_transitions rest C'
          | None => None
          end
      | [] => Some C
      end
  | [] => Some C
  end.

(** One row of [P]: [C[i] / row_sum] when the row has a transition, zeros
    otherwise. *)
Definition normalize_row (row : list nat) : list Q :=
  let row_sum := list_sum row in
  if (0 <? row_sum)%nat
  then map (fun c => inject_Z (Z.of_nat c) / inject_Z (Z.of_nat row_sum)) row
  else map (fun _ => 0) row.

Definition transition_probabilities (C : matrix nat) : matrix Q :=
  map normalize_row C.

(** [B = (P > 0).astype(np.uint8)]. *)
Definition binarize (P : matrix Q) : matrix bool :=
  map (map (fun p => Qltb 0 p)) P.

(** *** OpenCV's [connectedComponents] with [connectivity=4]

    The routine reads the matrix as an image: non-zero cells are foreground,
    two foreground cells belong together when a path of horizontal and
    vertical steps through foreground cells joins them (diagonal steps do
    not count), the background gets label 0 and the components get labels
    1, 2, ... in the order a row-by-row scan first meets them.  The function
    below is an executable rendering of that contract: a raster scan that
    flood-fills every unlabelled foreground cell it meets. *)

Definition neighbours4 (p : nat * nat) : list (nat * nat) :=
  let '(i, j) := p in
  match i with S i' => [(i', j)] | O => [] end ++
  match j with S j' => [(i, j')] | O => [] end ++
  [(i, S j); (S i, j)].

Definition set_entry (i j v : nat) (L : matrix nat) : matrix nat :=
  alter (fun row => <[j := v]> row) i L.

Definition unlabelled_foreground (B : matrix bool) (L : matrix nat) (p : nat * nat) : bool :=
  entry false B p.1 p.2 && (entry 0%nat L p.1 p.2 =? 0)%nat.

Fixpoint flood (fuel : nat) (B : matrix bool) (label : nat)
    (stack : list (nat * nat)) (L : matrix nat) : matrix nat :=
  match fuel with
  | O => L
  | S fuel' =>
      match stack with
      | [] => L
      | p :: stack' =>
          if unlabelled_foreground B L p
          then flood fuel' B label (neighbours4 p ++ stack') (set_entry p.1 p.2 label L)
          else flood fuel' B label stack' L
      end
  end.

Definition raster (h w : nat) : list (nat * nat) :=
  flat_map (fun i => map (fun j => (i, j)) (seq 0 w)) (seq 0 h).

(** Returns [(num_labels, labels_img)]; [num_labels] counts the background. *)
Definition connectedComponents (B : matrix bool) : nat * matrix nat :=
  let h := length B in
  let w := length (nth 0 B []) in
  fold_left
    (fun acc p =>
       if unlabelled_foreground B acc.2 p
       then (S acc.1, flood (4 * h * w + 1) B acc.1 [p] acc.2)
       else acc)
    (raster h w) (1%nat, repeat (repeat 0%nat w) h).

(** Lines 557-571: from the state sequence of a window with more than one
    state to the window's label. *)
Definition adjacency (C : matrix nat) : matrix bool :=
  binarize (transition_probabilities C).

Definition main_label (B : matrix bool) : nat :=
  let '(num_labels, labels_img) := connectedComponents B in
  let counts := tail (bincount (concat labels_img)) in
  if (0 <? length counts)%nat then (argmax Nat.ltb counts + 1)%nat else 0%nat.

(** Lines 554-572 for one window, given the cluster labels of its samples. *)
Definition window_label (states : list nat) : option nat :=
  if (n_unique states =? 1)%nat then Some 1%nat
  else
    let r := n_unique states in
    match count_transitions states (zeros r) with
    | Some C => Some (main_label (adjacency C))
    | None => None
    end.

(** A window whose states alternate: [a, b, a, b, ...], [n] samples. *)
Fixpoint alternating (a b : nat) (n : nat) : list nat :=
  match n with
  | O => []
  | S n' => a :: alternating b a n'
  end.

(** The reading of the specification's scenario: the labelling finds a single
    component (background and one label). *)
Definition one_component (B : matrix bool) : bool :=
  ((connectedComponents B).1 =? 2)%nat.


(** *** Binarising the transition probabilities *)

Lemma ratio_positive (c s : nat) :
  (0 < s)%nat →
  Qltb 0 (inject_Z (Z.of_nat c) / inject_Z (Z.of_nat s)) = (0 <? c)%nat.
Proof.
  intros Hs. destruct s as [|s]; [lia|].
  destruct (0 <? c)%nat eqn:Hc.
  - apply Nat.ltb_lt in Hc. apply Qltb_lt.
    unfold Qlt, Qdiv, Qmult, Qinv, inject_Z. simpl. lia.
  - apply Nat.ltb_ge in Hc. assert (c = 0%nat) as -> by lia.
    apply Qltb_ge. unfold Qle, Qdiv, Qmult, Qinv, inject_Z. simpl. lia.
Qed.

Lemma list_sum_zero (row : list nat) (c : nat) :
  list_sum row = 0%nat → In c row → c = 0%nat.
Proof.
  induction row as [|x row IH]; simpl; [tauto|].
  intros Hsum [-> | Hin]; [lia|]. apply IH; [lia|exact Hin].
Qed.

Lemma binarize_normalize_row (row : list nat) :
  map (fun p => Qltb 0 p) (normalize_row row) = map (fun c => (0 <? c)%nat) row.
Proof.
  unfold normalize_row. destruct (0 <? list_sum row)%nat eqn:Hs.
  - apply Nat.ltb_lt in Hs. rewrite map_map. apply map_ext.
    intros c. by apply ratio_positive.
  - apply Nat.ltb_ge in Hs. rewrite map_map. apply map_ext_in.
    intros c Hc. rewrite (list_sum_zero row c) by (lia || exact Hc). reflexivity.
Qed.

(** An edge of the binarised graph is a transition that was seen. *)
Lemma adjacency_seen (C : matrix nat) :
  adjacency C = map (map (fun c => (0 <? c)%nat)) C.
Proof.
  unfold adjacency, binarize, transition_probabilities. rewrite map_map.
  apply map_ext. intros row. apply binarize_normalize_row.
Qed.

(** *** Alternating windows *)

Lemma alternating_length (a b n : nat) : length (alternating a b n) = n.
Proof. revert a b. induction n as [|n IH]; intros a b; simpl; [|rewrite IH]; reflexivity. Qed.

Lemma alternating_elem (a b n : nat) :
  (2 <= n)%nat → b ∈ alternating a b n.
Proof.
  intros Hn. destruct n as [|[|n]]; [lia|lia|]. simpl. apply list_elem_of_further. constructor.
Qed.

Lemma n_unique_alternating (a b n : nat) :
  a ≠ b → (2 <= n)%nat → n_unique (alternating a b n) = 2%nat.
Proof.
  unfold n_unique. revert a b. induction n as [|n IH]; intros a b Hab Hn; [lia|].
  cbn [alternating remove_dups].
  destruct (decide_rel elem_of a (alternating b a n)) as [Hin | Hout].
  - destruct (decide (2 <= n)%nat) as [Hbig | Hsmall].
    + apply IH; [congruence|exact Hbig].
    + assert (n = 1%nat) as -> by lia. cbn [alternating] in Hin.
      apply list_elem_of_singleton in Hin. congruence.
  - destruct (decide (2 <= n)%nat) as [Hbig | Hsmall].
    + exfalso. apply Hout. by apply alternating_elem.
    + assert (n = 1%nat) as -> by lia. reflexivity.
Qed.

Lemma count_transitions_step (i j : nat) (rest : list nat) (C C' : matrix nat) :
  bump i j C = Some C' →
  count_transitions (i :: j :: rest) C = count_transitions (j :: rest) C'.
Proof. intros H. cbn [count_transitions]. rewrite H. reflexivity. Qed.

(** The counts an alternating window adds to a 2x2 matrix: [n / 2]
    transitions leave the first state, [(n - 1) / 2] come back. *)
Lemma count_transitions_alternating (n x00 x01 x10 x11 : nat) :
  count_transitions (alternating 0 1 n) [[x00; x01]; [x10; x11]] =
    Some [[x00; (x01 + n / 2)%nat]; [(x10 + (n - 1) / 2)%nat; x11]] ∧
  count_transitions (alternating 1 0 n) [[x00; x01]; [x10; x11]] =
    Some [[x00; (x01 + (n - 1) / 2)%nat]; [(x10 + n / 2)%nat; x11]].
Proof.
  revert x00 x01 x10 x11. induction n as [|n IH]; intros x00 x01 x10 x11.
  { cbn. rewrite !Nat.add_0_r. split; reflexivity. }
  destruct n as [|n].
  { cbn. rewrite !Nat.add_0_r. split; reflexivity. }
  assert ((S (S n) / 2 = S (n / 2))%nat) as Hhalf.
  { change (S (S n)) with (1 * 2 + n)%nat at 1.
    rewrite Nat.add_comm, Nat.div_add by lia. lia. }
  assert ((S (S n) - 1 = S n)%nat) as -> by lia.
  rewrite Hhalf.
  assert ((S n - 1) / 2 = n / 2)%nat as Hprev by (f_equal; lia).
  split.
  - change (alternating 0 1 (S (S n))) with (0 :: 1 :: alternating 0 1 n)%nat.
    rewrite (count_transitions_step 0 1 _ [[x00; x01]; [x10; x11]]
               [[x00; S x01]; [x10; x11]] eq_refl).
    change (1 :: alternating 0 1 n)%nat with (alternating 1 0 (S n)).
    destruct (IH x00 (S x01) x10 x11) as [_ ->]. rewrite Hprev.
    replace (S x01 + n / 2)%nat with (x01 + S (n / 2))%nat by lia. reflexivity.
  - change (alternating 1 0 (S (S n))) with (1 :: 0 :: alternating 1 0 n)%nat.
    rewrite (count_transitions_step 1 0 _ [[x00; x01]; [x10; x11]]
               [[x00; x01]; [S x10; x11]] eq_refl).
    change (0 :: alternating 1 0 n)%nat with (alternating 0 1 (S n)).
    destruct (IH x00 x01 (S x10) x11) as [-> _]. rewrite Hprev.
    replace (S x10 + n / 2)%nat with (x10 + S (n / 2))%nat by lia. reflexivity.
Qed.

Lemma main_label_two_states (e01 e10 : bool) :
  (e01 || e10 = true) →
  main_label [[false; e01]; [e10; false]] = 1%nat.
Proof. destruct e01, e10; intros H; try discriminate; reflexivity. Qed.

(** C1, as the code has it.  For a window whose states alternate between the
    two cluster ids 0 and 1 ([n >= 2] samples, starting with [a]): the count
    matrix has a zero diagonal and holds [n / 2] transitions from [a] to [b]
    and [(n - 1) / 2] back, so each row's off-diagonal entry is at least its
    diagonal entry; the binarised matrix has no self-loop and the edge
    [a -> b]; from three samples on it is the 2-node matrix with both edges,
    and the 4-connected labelling of that matrix puts its two cells, which
    only touch diagonally, into two components (labels 1 and 2, three labels
    with the background); the window's label is 1, the first component
    met. *)
Theorem alternating_window_label (a b n : nat) :
  (a = 0%nat ∧ b = 1%nat) ∨ (a = 1%nat ∧ b = 0%nat) →
  (2 <= n)%nat →
  ∃ C : matrix nat,
    count_transitions (alternating a b n) (zeros (n_unique (alternating a b n))) = Some C ∧
    entry 0%nat C a a = 0%nat ∧ entry 0%nat C b b = 0%nat ∧
    entry 0%nat C a b = (n / 2)%nat ∧ entry 0%nat C b a = ((n - 1) / 2)%nat ∧
    (entry 0%nat C a a < entry 0%nat C a b)%nat ∧
    entry false (adjacency C) 0 0 = false ∧
    entry false (adjacency C) 1 1 = false ∧
    entry false (adjacency C) a b = true ∧
    ((3 <= n)%nat →
       adjacency C = [[false; true]; [true; false]] ∧
       connectedComponents (adjacency C) = (3%nat, [[0; 1]; [2; 0]]%nat)) ∧
    window_label (alternating a b n) = Some 1%nat.
Proof.
  intros Hab Hn.
  assert (1 <= n / 2)%nat as Hk1.
  { apply (Nat.div_le_lower_bound n 2 1); lia. }
  assert ((3 <= n)%nat → (1 <= (n - 1) / 2)%nat) as Hk2.
  { intros H3. apply (Nat.div_le_lower_bound (n - 1) 2 1); lia. }
  assert (a ≠ b) as Hne by (destruct Hab as [[-> ->] | [-> ->]]; discriminate).
  unfold window_label. rewrite (n_unique_alternating a b n Hne Hn).
  change (zeros 2) with [[0; 0]; [0; 0]]%nat. cbn [Nat.eqb].
  destruct (count_transitions_alternating n 0 0 0 0) as [H01 H10].
  cbn [Nat.add] in H01, H10.
  destruct Hab as [[-> ->] | [-> ->]].
  - rewrite H01. eexists. split; [reflexivity|].
    rewrite adjacency_seen. cbn [entry nth map].
    assert ((0 <? n / 2)%nat = true) as -> by (apply Nat.ltb_lt; lia).
    repeat (split; [first [reflexivity | lia]|]).
    split.
    + intros H3. assert ((0 <? (n - 1) / 2)%nat = true) as ->.
      { apply Nat.ltb_lt. specialize (Hk2 H3). lia. }
      split; reflexivity.
    + f_equal. by apply main_label_two_states.
  - rewrite H10. eexists. split; [reflexivity|].
    rewrite adjacency_seen. cbn [entry nth map].
    assert ((0 <? n / 2)%nat = true) as -> by (apply Nat.ltb_lt; lia).
    repeat (split; [first [reflexivity | lia]|]).
    split.
    + intros H3. assert ((0 <? (n - 1) / 2)%nat = true) as ->.
      { apply Nat.ltb_lt. specialize (Hk2 H3). lia. }
      split; reflexivity.
    + f_equal. apply main_label_two_states. by rewrite orb_true_r.
Qed.

Lemma alternating_window_label_witness :
  ∃ C : matrix nat,
    count_transitions (alternating 0 1 20) (zeros (n_unique (alternating 0 1 20))) = Some C ∧
    entry 0%nat C 0 0 = 0%nat ∧ entry 0%nat C 1 1 = 0%nat ∧
    entry 0%nat C 0 1 = (20 / 2)%nat ∧ entry 0%nat C 1 0 = ((20 - 1) / 2)%nat ∧
    (entry 0%nat C 0 0 < entry 0%nat C 0 1)%nat ∧
    entry false (adjacency C) 0 0 = false ∧
    entry false (adjacency C) 1 1 = false ∧
    entry false (adjacency C) 0 1 = true ∧
    ((3 <= 20)%nat →
       adjacency C = [[false; true]; [true; false]] ∧
       connectedComponents (adjacency C) = (3%nat, [[0; 1]; [2; 0]]%nat)) ∧
    window_label (alternating 0 1 20) = Some 1%nat.
Proof.
  apply (alternating_window_label 0 1 20).
  - left. split; reflexivity.
  - lia.
Defined.

(** C1, as the specification words it, fails on the pipeline's own window
    length.  Twenty samples alternating between states 0 and 1 give the
    counts [[0, 10], [9, 0]] and the adjacency matrix [[0, 1], [1, 0]]; its
    two cells get different labels, the labelling reports three labels
    (background and two components), not a single component holding both
    nodes. *)
Lemma alternating_edges_fall_apart :
  count_transitions (alternating 0 1 20) (zeros 2) = Some [[0; 10]; [9; 0]]%nat ∧
  adjacency [[0; 10]; [9; 0]]%nat = [[false; true]; [true; false]] ∧
  connectedComponents [[false; true]; [true; false]] = (3%nat, [[0; 1]; [2; 0]]%nat) ∧
  entry 0%nat (connectedComponents [[false; true]; [true; false]]).2 0 1 ≠
    entry 0%nat (connectedComponents [[false; true]; [true; false]]).2 1 0 ∧
  one_component (adjacency [[0; 10]; [9; 0]]%nat) = false.
Proof. repeat split; try (vm_compute; reflexivity). vm_compute. discriminate. Qed.


(** *** The whole function *)

(** [range(0, stop, step)]; a zero step raises ValueError. *)
Definition range_step (stop step : nat) : option (list nat) :=
  if (step =? 0)%nat then None
  else Some (map (fun k => (k * step)%nat) (seq 0 ((stop + step - 1) / step))).

(** [range(lo, hi)] over integers that may be negative. *)
Definition zrange (lo hi : Z) : list Z :=
  map (fun k => (lo + Z.of_nat k)%Z) (seq 0 (Z.to_nat (hi - lo))).

(** Lines 576-580 for one sample [t]. *)
Definition final_label (L : nat) (seq_labels : list nat) (n_windows : nat) (t : nat) : nat :=
  let i_min := Z.max 0 (Z.of_nat t - Z.of_nat L + 1) in
  let i_max := Z.min (Z.of_nat t) (Z.of_nat n_windows - 1) in
  let labels_here :=
    map (fun i => nth (Z.to_nat i) seq_labels 0%nat) (zrange i_min (i_max + 1)) in
  match labels_here with
  | [] => 0%nat
  | l0 :: _ => if forallb (fun l => (l =? l0)%nat) labels_here then l0 else 0%nat
  end.

Section Segmentation.

(** [Series.ewm(alpha=alpha).mean()] of pandas. *)
Variable ewm_mean : Q → list Q → list Q.

(** [AgglomerativeClustering(n_clusters=None, distance_threshold=d)
    .fit_predict(window.reshape(-1, 1))] of scikit-learn: one cluster id per
    sample. *)
Variable fit_predict : Q → list Q → list nat.

(** Lines 545-548: the windows, or [None] where [range] raises. *)
Definition windows (series_smoothed : list Q) (L step : nat) : option (list (list Q)) :=
  match range_step (length series_smoothed + 1 - L) step with
  | Some starts => Some (map (fun start => take L (drop start series_smoothed)) starts)
  | None => None
  end.

(** Lines 550-572: one label per window. *)
Definition seq_labels (series : list Q) (distance_threshold alpha : Q)
    (L step : nat) : option (list nat) :=
  match windows (ewm_mean alpha series) L step with
  | Some ws => mapM (fun window => window_label (fit_predict distance_threshold window)) ws
  | None => None
  end.

Definition steady_state_extraction_core (series : list Q)
    (distance_threshold alpha : Q) (L step : nat) : option (list nat) :=
  let series_smoothed := ewm_mean alpha series in
  match seq_labels series distance_threshold alpha L step with
  | Some labels =>
      let T := length series_smoothed in
      Some (map (final_label L labels (length labels)) (seq 0 T))
  | None => None
  end.

(** The call of the step (lines 583-587). *)
Definition labels_me_load (series : list Q) : option (list nat) :=
  steady_state_extraction_core series 700 0.2 20 1.


(** What the proofs use of the two library calls: smoothing keeps the length
    of the series, and a window of at least two equal samples clustered with
    a positive distance threshold forms one cluster, with id 0. *)
Hypothesis ewm_mean_length :
  ∀ alpha series, length (ewm_mean alpha series) = length series.

Hypothesis fit_predict_flat :
  ∀ (distance_threshold c : Q) (window : list Q),
    0 < distance_threshold → (2 <= length window)%nat →
    Forall (fun x => x == c) window →
    fit_predict distance_threshold window = repeat 0%nat (length window).

Lemma range_step_one (stop : nat) : range_step stop 1 = Some (seq 0 stop).
Proof.
  unfold range_step. cbn [Nat.eqb]. f_equal.
  replace ((stop + 1 - 1) / 1)%nat with stop by (rewrite Nat.div_1_r; lia).
  rewrite <- (map_id (seq 0 stop)) at 2. apply map_ext. intros k. lia.
Qed.

Lemma n_unique_repeat (x k : nat) : (1 <= k)%nat → n_unique (repeat x k) = 1%nat.
Proof.
  unfold n_unique. induction k as [|k IH]; intros Hk; [lia|].
  cbn [repeat remove_dups].
  destruct (decide_rel elem_of x (repeat x k)) as [Hin | Hout].
  - destruct k as [|k]; [by apply elem_of_nil in Hin|]. apply IH. lia.
  - destruct k as [|k]; [reflexivity|]. exfalso. apply Hout. constructor.
Qed.

Lemma window_label_flat (distance_threshold c : Q) (window : list Q) :
  0 < distance_threshold → (2 <= length window)%nat →
  Forall (fun x => x == c) window →
  window_label (fit_predict distance_threshold window) = Some 1%nat.
Proof.
  intros Hthr Hlen Hflat. rewrite (fit_predict_flat _ c) by assumption.
  unfold window_label. rewrite n_unique_repeat by lia. reflexivity.
Qed.

Lemma mapM_all_one {A : Type} (f : A → option nat) (l : list A) :
  (∀ x, x ∈ l → f x = Some 1%nat) → mapM f l = Some (repeat 1%nat (length l)).
Proof.
  induction l as [|x l IH]; intros H; [reflexivity|].
  cbn [mapM]. rewrite (H x) by constructor.
  rewrite IH by (intros y Hy; apply H; by constructor). reflexivity.
Qed.

Lemma labels_here_all_one (n_windows : nat) (lo : Z) (m : nat) :
  (0 <= lo)%Z → (lo + Z.of_nat m <= Z.of_nat n_windows)%Z →
  map (fun i => nth (Z.to_nat i) (repeat 1%nat n_windows) 0%nat)
      (map (fun k => (lo + Z.of_nat k)%Z) (seq 0 m)) = repeat 1%nat m.
Proof.
  intros Hlo Hhi. rewrite map_map.
  assert (∀ o, (lo + Z.of_nat (o + m) <= Z.of_nat n_windows)%Z →
            map (fun k => nth (Z.to_nat (lo + Z.of_nat k)) (repeat 1%nat n_windows) 0%nat)
                (seq o m) = repeat 1%nat m) as Hgen.
  { clear Hhi. induction m as [|m IH]; intros o Ho; [reflexivity|].
    cbn [seq map repeat]. f_equal.
    - apply nth_repeat_lt. lia.
    - apply IH. lia. }
  apply Hgen. exact Hhi.
Qed.

Lemma final_label_all_one (L n_windows t : nat) :
  (1 <= L)%nat → (1 <= n_windows)%nat → (t < n_windows + L - 1)%nat →
  final_label L (repeat 1%nat n_windows) n_windows t = 1%nat.
Proof.
  intros HL Hnw Ht. unfold final_label, zrange.
  set (i_min := Z.max 0 (Z.of_nat t - Z.of_nat L + 1)).
  set (i_max := Z.min (Z.of_nat t) (Z.of_nat n_windows - 1)).
  assert (0 <= i_min <= i_max ∧ i_max < Z.of_nat n_windows)%Z as Hbounds
    by (unfold i_min, i_max; lia).
  rewrite labels_here_all_one by lia.
  destruct (Z.to_nat (i_max + 1 - i_min)) as [|m] eqn:Hm; [lia|].
  cbn [repeat].
  assert (forallb (fun l => (l =? 1)%nat) (1%nat :: repeat 1%nat m) = true) as ->;
    [|reflexivity].
  apply forallb_forall. intros l Hl.
  change (1%nat :: repeat 1%nat m) with (repeat 1%nat (S m)) in Hl.
  apply repeat_spec in Hl as ->. reflexivity.
Qed.

Lemma map_seq_all_one (f : nat → nat) (T : nat) :
  (∀ t, (t < T)%nat → f t = 1%nat) → map f (seq 0 T) = repeat 1%nat T.
Proof.
  intros H.
  assert (∀ o n, (o + n <= T)%nat → map f (seq o n) = repeat 1%nat n) as Hgen.
  { intros o n. revert o. induction n as [|n IH]; intros o Ho; [reflexivity|].
    cbn [seq map repeat]. rewrite H by lia. f_equal. apply IH. lia. }
  apply Hgen. lia.
Qed.

(** C2.  Let the smoothed series be flat (every entry equal to one value)
    and at least as long as the window length [L] (two samples or more, the
    stride being 1 as in the step's call).  Then every window gets label 1 and
    the final label is 1 at every index of the series. *)
Theorem flat_series_is_steady (series : list Q) (distance_threshold alpha c : Q)
    (L : nat) :
  0 < distance_threshold → (2 <= L)%nat → (L <= length series)%nat →
  Forall (fun x => x == c) (ewm_mean alpha series) →
  seq_labels series distance_threshold alpha L 1 =
    Some (repeat 1%nat (length series + 1 - L)) ∧
  steady_state_extraction_core series distance_threshold alpha L 1 =
    Some (repeat 1%nat (length series)).
Proof.
  intros Hthr HL HT Hflat.
  assert (seq_labels series distance_threshold alpha L 1 =
          Some (repeat 1%nat (length series + 1 - L))) as Hlabels.
  { unfold seq_labels, windows. rewrite range_step_one, ewm_mean_length.
    rewrite mapM_all_one.
    - by rewrite length_map, length_seq.
    - intros window Hw. apply list_elem_of_fmap in Hw as (start & -> & Hstart).
      apply elem_of_seq in Hstart.
      apply (window_label_flat _ c); [exact Hthr| |].
      + rewrite length_take, length_drop, ewm_mean_length. lia.
      + apply Forall_take, Forall_drop, Hflat. }
  split; [exact Hlabels|].
  unfold steady_state_extraction_core. rewrite Hlabels, ewm_mean_length.
  rewrite repeat_length. f_equal. apply map_seq_all_one.
  intros t Ht. apply final_label_all_one; lia.
Qed.

End Segmentation.

(** *** Reference renderings of the two library calls

    They make the stage run on concrete series.  The smoothing is pandas'
    adjusted exponentially weighted mean in exact arithmetic.  The clusterer
    is a plain leader clustering: it is not scikit-learn's agglomerative
    algorithm, and stands in for it only where both agree, as on a flat
    window. *)

Fixpoint ewm_from (alpha num den : Q) (xs : list Q) : list Q :=
  match xs with
  | [] => []
  | x :: xs' =>
      let num' := Qred (x + (1 - alpha) * num) in
      let den' := Qred (1 + (1 - alpha) * den) in
      Qred (num' / den') :: ewm_from alpha num' den' xs'
  end.

Definition ewm_mean_adjusted (alpha : Q) (series : list Q) : list Q :=
  ewm_from alpha 0 0 series.

Fixpoint find_leader (thr x : Q) (leaders : list Q) (k : nat) : option nat :=
  match leaders with
  | [] => None
  | l :: leaders' =>
      if Qltb (Qabs (x - l)) thr then Some k
      else find_leader thr x leaders' (S k)
  end.

Fixpoint leader_labels (thr : Q) (leaders : list Q) (window : list Q) : list nat :=
  match window with
  | [] => []
  | x :: window' =>
      match find_leader thr x leaders 0 with
      | Some k => k :: leader_labels thr leaders window'
      | None => length leaders :: leader_labels thr (leaders ++ [x]) window'
      end
  end.

Definition leader_clustering (thr : Q) (window : list Q) : list nat :=
  leader_labels thr [] window.

Lemma ewm_from_length (alpha num den : Q) (xs : list Q) :
  length (ewm_from alpha num den xs) = length xs.
Proof.
  revert num den. induction xs as [|x xs IH]; intros num den; [reflexivity|].
  cbn [ewm_from length]. by rewrite IH.
Qed.

Lemma leader_labels_flat (thr c l : Q) (window : list Q) :
  0 < thr → l == c → Forall (fun x => x == c) window →
  leader_labels thr [l] window = repeat 0%nat (length window).
Proof.
  intros Hthr Hl. induction 1 as [|x window Hx _ IH]; [reflexivity|].
  cbn [leader_labels find_leader length repeat].
  assert (Qltb (Qabs (x - l)) thr = true) as ->.
  { apply Qltb_lt.
    assert (Qabs (x - l) == 0) as Hzero.
    { rewrite Hx, Hl. unfold Qminus. rewrite Qplus_opp_r. reflexivity. }
    rewrite Hzero. exact Hthr. }
  by rewrite IH.
Qed.

Lemma leader_clustering_flat (thr c : Q) (window : list Q) :
  0 < thr → (2 <= length window)%nat → Forall (fun x => x == c) window →
  leader_clustering thr window = repeat 0%nat (length window).
Proof.
  intros Hthr _ Hflat. destruct Hflat as [|x window Hx Hflat]; [reflexivity|].
  unfold leader_clustering. cbn [leader_labels find_leader length repeat app].
  by rewrite (leader_labels_flat thr c x window Hthr Hx Hflat).
Qed.

Lemma Forall_Qeq_bool (c : Q) (l : list Q) :
  forallb (fun x => Qeq_bool x c) l = true → Forall (fun x => x == c) l.
Proof.
  intros H. apply Forall_forall. intros x Hx.
  apply Qeq_bool_eq. rewrite forallb_forall in H. apply H.
  by apply list_elem_of_In.
Qed.

(** Twenty-five readings of 5000 kW. *)
Definition flat_power : list Q := repeat 5000 25.

Example flat_power_smoothed :
  forallb (fun x => Qeq_bool x 5000) (ewm_mean_adjusted 0.2 flat_power) = true.
Proof. vm_compute. reflexivity. Qed.

Lemma flat_series_is_steady_witness :
  seq_labels ewm_mean_adjusted leader_clustering flat_power 700 0.2 20 1 =
    Some (repeat 1%nat (length flat_power + 1 - 20)) ∧
  steady_state_extraction_core ewm_mean_adjusted leader_clustering flat_power 700 0.2 20 1 =
    Some (repeat 1%nat (length flat_power)).
Proof.
  apply (flat_series_is_steady ewm_mean_adjusted leader_clustering
           (fun alpha series => ewm_from_length alpha 0 0 series)
           (fun thr c window => leader_clustering_flat thr c window)
           flat_power 700 0.2 5000 20).
  - reflexivity.
  - lia.
  - vm_compute. lia.
  - apply Forall_Qeq_bool. vm_compute. reflexivity.
Defined.

(** The same run by evaluation, through the step's own call. *)
Example flat_power_labels :
  labels_me_load ewm_mean_adjusted leader_clustering flat_power = Some (repeat 1%nat 25).
Proof. vm_compute. reflexivity. Qed.

(** The stride matters: with a stride of 5 the same flat series has two
    windows only, and the loop of lines 576-580 finds no window for the last
    four samples, which end with label 0. *)
Example flat_power_stride_5 :
  steady_state_extraction_core ewm_mean_adjusted leader_clustering flat_power 700 0.2 20 5 =
  Some (repeat 1%nat 21 ++ repeat 0%nat 4).
Proof. vm_compute. reflexivity. Qed.


(** *** Windows with two states *)

Lemma count_transitions_two_states (states : list nat) (a b c d : nat) :
  Forall (fun s => (s < 2)%nat) states →
  ∃ a' b' c' d',
    count_transitions states [[a; b]; [c; d]] = Some [[a'; b']; [c'; d']] ∧
    (a' + b' + c' + d' = a + b + c + d + (length states - 1))%nat.
Proof.
  intros Hst. revert a b c d.
  induction Hst as [|i states Hi Hst IH]; intros a b c d.
  { exists a, b, c, d. split; [reflexivity|simpl; lia]. }
  destruct Hst as [|j states Hj Hst].
  { exists a, b, c, d. split; [reflexivity|simpl; lia]. }
  assert (∃ a1 b1 c1 d1,
            bump i j [[a; b]; [c; d]] = Some [[a1; b1]; [c1; d1]] ∧
            (a1 + b1 + c1 + d1 = S (a + b + c + d))%nat) as (a1 & b1 & c1 & d1 & Hb & Hsum).
  { destruct i as [|[|i]]; [| |lia]; (destruct j as [|[|j]]; [| |lia]);
      eexists _, _, _, _; (split; [reflexivity|lia]). }
  rewrite (count_transitions_step i j states _ _ Hb).
  destruct (IH a1 b1 c1 d1) as (a' & b' & c' & d' & Hrun & Hsum').
  exists a', b', c', d'. split; [exact Hrun|]. cbn [length] in *. lia.
Qed.

Lemma main_label_2x2 (b00 b01 b10 b11 : bool) :
  b00 || b01 || b10 || b11 = true →
  main_label [[b00; b01]; [b10; b11]] = 1%nat.
Proof.
  destruct b00, b01, b10, b11; intros H; try discriminate; vm_compute; reflexivity.
Qed.

Lemma n_unique_two_states (states : list nat) :
  Forall (fun s => (s < 2)%nat) states → (n_unique states <= 2)%nat.
Proof.
  intros Hst. unfold n_unique.
  change 2%nat with (length [0; 1]%nat).
  apply submseteq_length, NoDup_submseteq; [apply NoDup_remove_dups|].
  intros s Hs. apply (proj1 (elem_of_remove_dups _ _)) in Hs.
  rewrite Forall_forall in Hst. specialize (Hst s Hs).
  destruct s as [|[|s]]; [| |lia].
  - constructor.
  - apply list_elem_of_further. constructor.
Qed.

Lemma n_unique_length (states : list nat) : (n_unique states <= length states)%nat.
Proof.
  unfold n_unique. apply submseteq_length, NoDup_submseteq; [apply NoDup_remove_dups|].
  intros s Hs. by apply (proj1 (elem_of_remove_dups _ _)) in Hs.
Qed.

Lemma n_unique_nonempty (states : list nat) : states ≠ [] → (1 <= n_unique states)%nat.
Proof.
  destruct states as [|s states]; [congruence|]. intros _. unfold n_unique.
  destruct (remove_dups (s :: states)) as [|x l] eqn:E; [|simpl; lia].
  assert (s ∈ remove_dups (s :: states)) as Hs by (apply elem_of_remove_dups; constructor).
  rewrite E in Hs. by apply elem_of_nil in Hs.
Qed.

(** X3.  A window whose samples fall into at most two clusters (ids 0 and 1)
    always gets label 1: with two states the binarised transition matrix is
    a non-empty 2x2 image, and the largest 4-connected component of such an
    image is always the first one found.  A window that splits in two is
    labelled like a window that does not split at all. *)
Theorem two_state_window_label (states : list nat) :
  states ≠ [] → Forall (fun s => (s < 2)%nat) states →
  window_label states = Some 1%nat.
Proof.
  intros Hne Hst. unfold window_label.
  pose proof (n_unique_two_states states Hst) as Hle.
  pose proof (n_unique_nonempty states Hne) as Hge.
  pose proof (n_unique_length states) as Hlen.
  destruct (n_unique states =? 1)%nat eqn:Hone; [reflexivity|].
  apply Nat.eqb_neq in Hone.
  assert (n_unique states = 2%nat) as -> by lia.
  change (zeros 2) with [[0; 0]; [0; 0]]%nat.
  destruct (count_transitions_two_states states 0 0 0 0 Hst)
    as (a & b & c & d & -> & Hsum).
  f_equal. rewrite adjacency_seen. cbn [map].
  apply main_label_2x2.
  destruct a, b, c, d; try reflexivity. simpl in Hsum. lia.
Qed.

Lemma two_state_window_label_witness :
  window_label [0; 0; 0; 1; 1; 1; 0]%nat = Some 1%nat.
Proof.
  apply (two_state_window_label [0; 0; 0; 1; 1; 1; 0]%nat).
  - discriminate.
  - repeat constructor.
Defined.


(** *** Which windows decide a sample's label (lines 574-580) *)

Lemma elem_of_zrange (lo hi i : Z) : i ∈ zrange lo hi ↔ (lo <= i < hi)%Z.
Proof.
  unfold zrange. rewrite list_elem_of_fmap. split.
  - intros (k & -> & Hk). apply elem_of_seq in Hk. lia.
  - intros Hi. exists (Z.to_nat (i - lo)). split; [lia|].
    apply elem_of_seq. lia.
Qed.

(** Window [i] covers sample [t] in the loop's reading: it is one of the
    [n_windows] windows and [i <= t < i + L]. *)
Definition covers (L n_windows i t : nat) : Prop :=
  (i < n_windows)%nat ∧ (i <= t < i + L)%nat.

Lemma covers_zrange (L n_windows t : nat) (i : Z) :
  i ∈ zrange (Z.max 0 (Z.of_nat t - Z.of_nat L + 1))
             (Z.min (Z.of_nat t) (Z.of_nat n_windows - 1) + 1) ↔
  (0 <= i)%Z ∧ covers L n_windows (Z.to_nat i) t.
Proof. rewrite elem_of_zrange. unfold covers. lia. Qed.

(** X4.  The consensus rule.  A sample gets a non-zero final label [v]
    exactly when at least one window covers it and every window that covers
    it has label [v]; in every other case (no covering window, or two
    covering windows that disagree) its label is 0. *)
Theorem final_label_consensus (L n_windows t v : nat) (seq_labels : list nat) :
  v ≠ 0%nat →
  (final_label L seq_labels n_windows t = v ↔
   (∃ i, covers L n_windows i t) ∧
   ∀ i, covers L n_windows i t → nth i seq_labels 0%nat = v).
Proof.
  intros Hv. unfold final_label.
  set (S := zrange (Z.max 0 (Z.of_nat t - Z.of_nat L + 1))
                   (Z.min (Z.of_nat t) (Z.of_nat n_windows - 1) + 1)).
  assert (∀ i, i ∈ S ↔ (0 <= i)%Z ∧ covers L n_windows (Z.to_nat i) t) as HS
    by (intros i; apply covers_zrange).
  clearbody S.
  assert ((∀ i, covers L n_windows i t → nth i seq_labels 0%nat = v) ↔
          (∀ z, z ∈ S → nth (Z.to_nat z) seq_labels 0%nat = v)) as Hall.
  { split.
    - intros H z Hz. apply H. by apply HS.
    - intros H i Hi. rewrite <- (Nat2Z.id i). apply H, HS.
      rewrite Nat2Z.id. split; [lia|exact Hi]. }
  assert ((∃ i, covers L n_windows i t) ↔ S ≠ []) as Hex.
  { split.
    - intros (i & Hi) E. assert (Z.of_nat i ∈ S) as Hin.
      { apply HS. rewrite Nat2Z.id. split; [lia|exact Hi]. }
      rewrite E in Hin. by apply elem_of_nil in Hin.
    - destruct S as [|z S]; [congruence|]. intros _.
      exists (Z.to_nat z). apply HS. constructor. }
  rewrite Hall, Hex. clear Hall Hex HS.
  destruct S as [|z S]; cbn [map].
  { split; [intros E; congruence|intros [H _]; congruence]. }
  set (l0 := nth (Z.to_nat z) seq_labels 0%nat).
  destruct (forallb (fun l => (l =? l0)%nat)
              (l0 :: map (fun i => nth (Z.to_nat i) seq_labels 0%nat) S)) eqn:Hfor.
  - rewrite forallb_forall in Hfor. split.
    + intros <-. split; [discriminate|]. intros y Hy.
      apply Nat.eqb_eq. apply (Hfor (nth (Z.to_nat y) seq_labels 0%nat)).
      apply (in_map (fun i => nth (Z.to_nat i) seq_labels 0%nat) (z :: S) y).
      by apply list_elem_of_In.
    + intros [_ H]. apply H. constructor.
  - split; [intros E; congruence|]. intros [_ H]. exfalso.
    assert (forallb (fun l => (l =? l0)%nat)
              (l0 :: map (fun i => nth (Z.to_nat i) seq_labels 0%nat) S) = true) as Htrue;
      [|congruence].
    apply forallb_forall. intros l Hl.
    change (l0 :: map (fun i => nth (Z.to_nat i) seq_labels 0%nat) S)
      with (map (fun i => nth (Z.to_nat i) seq_labels 0%nat) (z :: S)) in Hl.
    apply in_map_iff in Hl as (y & <- & Hy). apply list_elem_of_In in Hy.
    apply Nat.eqb_eq. rewrite (H y Hy). unfold l0. rewrite (H z); [reflexivity|constructor].
Qed.

Lemma final_label_consensus_witness :
  final_label 3 [2; 2; 2; 1]%nat 4 2 = 2%nat ↔
  (∃ i, covers 3 4 i 2) ∧ ∀ i, covers 3 4 i 2 → nth i [2; 2; 2; 1]%nat 0%nat = 2%nat.
Proof.
  apply (final_label_consensus 3 4 2 2 [2; 2; 2; 1]%nat). discriminate.
Defined.

Example final_label_disagreement :
  map (final_label 3 [2; 2; 2; 1]%nat 4) (seq 0 6) = [2; 2; 2; 0; 0; 1]%nat.
Proof. vm_compute. reflexivity. Qed.


(** *** The function on a column that may hold NaN

    The step hands the function a column of the frame, whose cells may be
    missing, and scikit-learn refuses a window that holds NaN.  The same
    lines 543-581 are therefore given once more over any sample type, with a
    clustering call that may raise; on rational samples and a clustering
    that always answers they are [steady_state_extraction_core]. *)

Section OnSamples.

Context {A : Type}.

(** [Series.ewm(alpha=alpha).mean()]. *)
Variable ewm_mean : Q → list A → list A.

(** [AgglomerativeClustering(...).fit_predict(window.reshape(-1, 1))];
    [None] where it raises (NaN in the window, fewer than two samples). *)
Variable fit_predict : Q → list A → option (list nat).

Definition windows_on (series_smoothed : list A) (L step : nat) : option (list (list A)) :=
  match range_step (length series_smoothed + 1 - L) step with
  | Some starts => Some (map (fun start => take L (drop start series_smoothed)) starts)
  | None => None
  end.

Definition seq_labels_on (series : list A) (distance_threshold alpha : Q)
    (L step : nat) : option (list nat) :=
  match windows_on (ewm_mean alpha series) L step with
  | Some ws =>
      mapM (fun window =>
              match fit_predict distance_threshold window with
              | Some states => window_label states
              | None => None
              end) ws
  | None => None
  end.

Definition steady_state_extraction_core_on (series : list A)
    (distance_threshold alpha : Q) (L step : nat) : option (list nat) :=
  let series_smoothed := ewm_mean alpha series in
  match seq_labels_on series distance_threshold alpha L step with
  | Some labels =>
      let T := length series_smoothed in
      Some (map (final_label L labels (length labels)) (seq 0 T))
  | None => None
  end.

Lemma range_step_empty (step : nat) : step ≠ 0%nat → range_step 0 step = Some [].
Proof.
  intros Hs. unfold range_step. destruct (step =? 0)%nat eqn:E.
  { apply Nat.eqb_eq in E. congruence. }
  replace ((0 + step - 1) / step)%nat with 0%nat; [reflexivity|].
  symmetry. apply Nat.div_small. lia.
Qed.

Lemma final_label_no_window (L t : nat) : final_label L [] 0 t = 0%nat.
Proof.
  unfold final_label, zrange.
  replace (Z.to_nat (Z.min (Z.of_nat t) (Z.of_nat 0 - 1) + 1 -
                     Z.max 0 (Z.of_nat t - Z.of_nat L + 1))) with 0%nat by lia.
  reflexivity.
Qed.

Lemma map_seq_all_zero (f : nat → nat) (T : nat) :
  (∀ t, f t = 0%nat) → map f (seq 0 T) = repeat 0%nat T.
Proof.
  intros H. generalize 0%nat at 1 as o.
  induction T as [|T IH]; intros o; [reflexivity|].
  cbn [seq map repeat]. by rewrite H, IH.
Qed.

(** A series shorter than the window has no window at all: the clustering is
    never called and every sample gets label 0. *)
Lemma short_series_all_zero (series : list A) (distance_threshold alpha : Q)
    (L step : nat) :
  (length (ewm_mean alpha series) < L)%nat → step ≠ 0%nat →
  steady_state_extraction_core_on series distance_threshold alpha L step =
    Some (repeat 0%nat (length (ewm_mean alpha series))).
Proof.
  intros Hshort Hstep.
  unfold steady_state_extraction_core_on, seq_labels_on, windows_on.
  replace (length (ewm_mean alpha series) + 1 - L)%nat with 0%nat by lia.
  rewrite (range_step_empty step Hstep). cbn [map mapM length].
  f_equal. apply map_seq_all_zero. intros t. apply final_label_no_window.
Qed.

(** X5.  Two clusters are never enough to reject a sample.  If the series is
    at least one window long and every window of the smoothed series is
    clustered into at most two clusters (ids 0 and 1), then, at stride 1,
    every window gets label 1 and every sample gets final label 1, however
    the values move inside the windows. *)
Theorem two_clusters_all_steady (series : list A) (distance_threshold alpha : Q)
    (L : nat) :
  (1 <= L)%nat → (L <= length (ewm_mean alpha series))%nat →
  (∀ start, (start + L <= length (ewm_mean alpha series))%nat →
     ∃ states,
       fit_predict distance_threshold (take L (drop start (ewm_mean alpha series))) =
         Some states ∧
       states ≠ [] ∧ Forall (fun s => (s < 2)%nat) states) →
  steady_state_extraction_core_on series distance_threshold alpha L 1 =
    Some (repeat 1%nat (length (ewm_mean alpha series))).
Proof.
  intros HL HT Hfit.
  unfold steady_state_extraction_core_on, seq_labels_on, windows_on.
  rewrite range_step_one, mapM_all_one.
  - rewrite length_map, length_seq, repeat_length. f_equal.
    apply map_seq_all_one. intros t Ht. apply final_label_all_one; lia.
  - intros window Hw. apply list_elem_of_fmap in Hw as (start & -> & Hstart).
    apply elem_of_seq in Hstart.
    destruct (Hfit start) as (states & -> & Hne & Hst); [lia|].
    by apply two_state_window_label.
Qed.

End OnSamples.

Lemma core_on_rationals (ewm_mean : Q → list Q → list Q)
    (fit_predict : Q → list Q → list nat) (series : list Q)
    (distance_threshold alpha : Q) (L step : nat) :
  steady_state_extraction_core_on ewm_mean
    (fun d window => Some (fit_predict d window)) series distance_threshold alpha L step =
  steady_state_extraction_core ewm_mean fit_predict series distance_threshold alpha L step.
Proof. reflexivity. Qed.

(** A step in the load: twelve readings of 5000 kW, then thirteen of 1000 kW,
    unsmoothed ([alpha = 1]). *)
Definition step_power : list Q := repeat 5000 12 ++ repeat 1000 13.

Lemma two_clusters_all_steady_witness :
  steady_state_extraction_core_on ewm_mean_adjusted
    (fun d window => Some (leader_clustering d window)) step_power 700 1 20 1 =
  Some (repeat 1%nat (length (ewm_mean_adjusted 1 step_power))).
Proof.
  apply (two_clusters_all_steady ewm_mean_adjusted
           (fun d window => Some (leader_clustering d window)) step_power 700 1 20).
  - lia.
  - vm_compute. lia.
  - intros start Hstart. eexists. split; [reflexivity|].
    assert (length (ewm_mean_adjusted 1 step_power) = 25%nat) as Hlen
      by (vm_compute; reflexivity).
    assert (start < 6)%nat as Hlt by lia.
    do 6 (destruct start as [|start];
          [split; [vm_compute; discriminate | vm_compute; repeat constructor]|]).
    lia.
Defined.

End SteadyState.

(** ** Evaluation against labelled data: [evaluate_autoencoder_step] *)

Module Evaluation.

Import Numpy.

(** *** Columns (lines 832-859)

    Whether the step gets as far as the scaler is a matter of column labels:
    the step selects, concatenates, drops and reorders by label.  The columns
    of a frame are its labels in order; pandas lets a label occur twice, and
    a rename can make it so. *)

(** What a lookup by label raises. *)
Inductive error : Type :=
  | KeyError (labels : list string)
  | InvalidIndexError.

Definition result (A : Type) : Type := (error + A)%type.

Definition bind {A B : Type} (m : result A) (f : A → result B) : result B :=
  match m with
  | inl e => inl e
  | inr a => f a
  end.

(** [anomalies.rename(columns=variables_used)]. *)
Definition rename (variables_used : list (string * string)) (cols : list string) : list string :=
  map (fun c => default c ((list_to_map variables_used : gmap string string) !! c)) cols.

(** [list(set(a).intersection(set(b)))]; the order of a Python set is not
    specified, and nothing below depends on it. *)
Definition intersection (a b : list string) : list string :=
  remove_dups (List.filter (fun c => bool_decide (c ∈ b)) a).

(** [df[labels]] with a list of labels: each label selects every column
    that carries it, in the order of [labels]; labels that no column carries
    raise a KeyError that names them. *)
Definition select (labels cols : list string) : result (list string) :=
  match List.filter (fun l => bool_decide (l ∉ cols)) labels with
  | [] => inr (flat_map (fun l => List.filter (fun c => bool_decide (c = l)) cols) labels)
  | l :: missing => inl (KeyError (l :: missing))
  end.

(** [df[label] = value]: the column is overwritten where the frame has it,
    and is a new last column otherwise. *)
Definition setitem (label : string) (cols : list string) : list string :=
  if bool_decide (label ∈ cols) then cols else cols ++ [label].

(** The columns of [pd.concat([a, b], ignore_index=True)].  Two frames with
    equal column indexes keep them.  Otherwise the result has the labels of
    the first frame followed by the new ones of the second, and each frame
    is reindexed to them, which pandas refuses for a frame in which a label
    occurs twice. *)
Definition concat_columns (a b : list string) : result (list string) :=
  if bool_decide (a = b) then inr a
  else if bool_decide (NoDup a) && bool_decide (NoDup b)
       then inr (a ++ List.filter (fun c => bool_decide (c ∉ a)) b)
       else inl InvalidIndexError.

(** Lines 840-842: the shared columns, with the label column appended when
    only the anomaly rows have it. *)
Definition common_columns (anomalies normals : list string) (anomaly_col : string)
    : list string :=
  let common_cols := intersection anomalies normals in
  if bool_decide (anomaly_col ∉ common_cols) && bool_decide (anomaly_col ∈ anomalies)
  then common_cols ++ [anomaly_col] else common_cols.

(** Lines 832-859 on the column labels: the columns of [X] as line 860
    hands it to [scaler.transform], or what the lines raise before.  The
    reference table comes from [pd.read_excel], which gives every column a
    label of its own; [final_df1.sample] and [.copy()] keep the columns. *)
Definition evaluate_features (test_columns : list string)
    (variables_used : list (string * string)) (final_df1_columns : list string)
    (drop_cols : list string) (anomaly_col : string) : result (list string) :=
  (* test[test[anomaly_col].notna()] *)
  if bool_decide (anomaly_col ∈ test_columns) then
    let anomalies := rename variables_used test_columns in
    let common_cols := common_columns anomalies final_df1_columns anomaly_col in
    (* anomalies[common_cols] *)
    bind (select common_cols anomalies) (fun anomalies =>
    (* normals[[c for c in common_cols if c != anomaly_col]] *)
    bind (select (List.filter (fun c => bool_decide (c ≠ anomaly_col)) common_cols)
                 final_df1_columns) (fun normals =>
    (* normals[anomaly_col] = np.nan *)
    let normals := setitem anomaly_col normals in
    bind (concat_columns anomalies normals) (fun test_data =>
    (* test_data.drop(columns=actually_dropped, errors='ignore') *)
    let test_data := List.filter (fun c => bool_decide (c ∉ drop_cols)) test_data in
    (* test_data[anomaly_col] *)
    if bool_decide (anomaly_col ∈ test_data) then
      (* X = test_data.drop(columns=[anomaly_col]); X = X[final_df1.columns] *)
      let X := List.filter (fun c => bool_decide (c ≠ anomaly_col)) test_data in
      select final_df1_columns X
    else inl (KeyError [anomaly_col]))))
  else inl (KeyError [anomaly_col]).

(** The reading of the specification's degenerate case: the lines go through
    with the intersection of the two column sets as the features. *)
Definition completes_on_intersection (test_columns : list string)
    (variables_used : list (string * string)) (final_df1_columns : list string)
    (drop_cols : list string) (anomaly_col : string) : Prop :=
  ∃ feats,
    evaluate_features test_columns variables_used final_df1_columns drop_cols anomaly_col =
      inr feats ∧
    ∀ c, c ∈ feats ↔
         c ∈ intersection (rename variables_used test_columns) final_df1_columns.

(** *** Threshold selection (lines 873-883) *)

(** [1e-12]. *)
Definition eps : Q := 1 # 1000000000000.

(** [2 * (precisions[:-1] * recalls[:-1]) / (precisions[:-1] + recalls[:-1] + 1e-12)]. *)
Definition f1_scores (precisions recalls : list Q) : list Q :=
  zip_with (fun p r => 2 * (p * r) / (p + r + eps))
           (removelast precisions) (removelast recalls).

Record BestPoint : Type := mkBest {
  best_idx : nat;
  best_threshold : Q;
  best_f1 : Q;
  best_precision : Q;
  best_recall : Q
}.

(** Lines 876-881 on the three arrays of the curve.  [np.argmax] of an empty
    array and an index past an array raise: [None]. *)
Definition select_best (precisions recalls thresholds : list Q) : option BestPoint :=
  let scores := f1_scores precisions recalls in
  match scores with
  | [] => None
  | _ =>
      let i := argmax Qltb scores in
      match thresholds !! i, scores !! i, precisions !! i, recalls !! i with
      | Some t, Some f, Some p, Some r => Some (mkBest i t f p r)
      | _, _, _, _ => None
      end
  end.

(** [y_pred_best = (reconstruction_error > best_threshold).astype(int)]. *)
Definition y_pred (threshold : Q) (reconstruction_error : list Q) : list bool :=
  map (fun e => Qltb threshold e) reconstruction_error.


(** *** What the curve measures

    As scikit-learn documents [precision_recall_curve]: at a threshold [t] a
    row is predicted positive when its score is at least [t]; precision is
    [tp / (tp + fp)] (0 where no row is flagged) and recall is
    [tp / positives] (1 when the test set has no positive). *)

Definition count_at (y_true : list bool) (scores : list Q) (t : Q) (label : bool) : nat :=
  length (List.filter (fun ys => Bool.eqb ys.1 label && Qle_bool t ys.2)
                      (zip y_true scores)).

Definition ratio (a b : nat) : Q := inject_Z (Z.of_nat a) / inject_Z (Z.of_nat b).

Definition precision_at (y_true : list bool) (scores : list Q) (t : Q) : Q :=
  let tp := count_at y_true scores t true in
  let fp := count_at y_true scores t false in
  if (tp + fp =? 0)%nat then 0 else ratio tp (tp + fp).

Definition recall_at (y_true : list bool) (scores : list Q) (t : Q) : Q :=
  let positives := length (List.filter (fun y : bool => y) y_true) in
  if (positives =? 0)%nat then 1 else ratio (count_at y_true scores t true) positives.



(** *** The [1e-12] of line 876 moves the F1 score by at most [1e-12] *)






Section WithCurve.

(** [sklearn.metrics.precision_recall_curve(y_true, scores)], returning
    [(precisions, recalls, thresholds)]. *)
Variable precision_recall_curve : list bool → list Q → list Q * list Q * list Q.

Definition best_operating_point (y_true : list bool) (reconstruction_error : list Q)
    : option BestPoint :=
  let '(precisions, recalls, thresholds) :=
    precision_recall_curve y_true reconstruction_error in
  select_best precisions recalls thresholds.

(** The shape of the curve: at least one threshold for a non-empty test set,
    and one more precision and recall than thresholds. *)
Hypothesis curve_shape :
  ∀ y_true scores, scores ≠ [] →
    (precision_recall_curve y_true scores).2 ≠ [] ∧
    length (precision_recall_curve y_true scores).1.1 =
      S (length (precision_recall_curve y_true scores).2) ∧
    length (precision_recall_curve y_true scores).1.2 =
      S (length (precision_recall_curve y_true scores).2).

(** The values of the curve: at each of its thresholds, the precision and
    the recall of flagging the rows whose score is at least the threshold. *)
Hypothesis curve_values :
  ∀ y_true scores k t,
    (precision_recall_curve y_true scores).2 !! k = Some t →
    (precision_recall_curve y_true scores).1.1 !! k = Some (precision_at y_true scores t) ∧
    (precision_recall_curve y_true scores).1.2 !! k = Some (recall_at y_true scores t).


(** *** The maximum found by [np.argmax] *)









End WithCurve.

(** *** A reference rendering of the curve

    As scikit-learn documents it: the thresholds are the distinct scores in
    increasing order, each with its precision and recall; a final point
    (precision 1, recall 0) has no threshold. *)

Fixpoint insert_distinct (x : Q) (l : list Q) : list Q :=
  match l with
  | [] => [x]
  | y :: l' =>
      if Qltb x y then x :: y :: l'
      else if Qeq_bool x y then y :: l'
      else y :: insert_distinct x l'
  end.

Definition distinct_sorted (scores : list Q) : list Q :=
  fold_right insert_distinct [] scores.

Definition precision_recall_curve_ref (y_true : list bool) (scores : list Q)
    : list Q * list Q * list Q :=
  let thresholds := distinct_sorted scores in
  (map (precision_at y_true scores) thresholds ++ [1],
   map (recall_at y_true scores) thresholds ++ [0],
   thresholds).




(** Two anomalies and two normal rows. *)
Definition sample_y_true : list bool := [false; true; false; true].
Definition sample_errors : list Q := [0.1; 0.9; 0.4; 0.35].

Example sample_curve :
  (precision_recall_curve_ref sample_y_true sample_errors).2 = [0.1; 0.35; 0.4; 0.9] ∧
  option_map best_idx
    (best_operating_point precision_recall_curve_ref sample_y_true sample_errors) = Some 1%nat ∧
  option_map best_threshold
    (best_operating_point precision_recall_curve_ref sample_y_true sample_errors) = Some 0.35.
Proof. repeat split; vm_compute; reflexivity. Qed.



(** The F1 score maximised is the curve's (positive when the error is at
    least the threshold).  The predictions of line 883 use a strict
    comparison: the row whose error equals the chosen threshold is predicted
    normal. *)
Example prediction_at_threshold_is_strict :
  option_map best_threshold
    (best_operating_point precision_recall_curve_ref [false; true] [0.1; 0.9]) = Some 0.9 ∧
  y_pred 0.9 [0.1; 0.9] = [false; false].
Proof. split; vm_compute; reflexivity. Qed.


(** *** Which columns survive *)

Lemma elem_of_filterb (f : string → bool) (l : list string) (c : string) :
  c ∈ List.filter f l ↔ c ∈ l ∧ f c = true.
Proof. rewrite !list_elem_of_In. apply List.filter_In. Qed.

Lemma elem_of_intersection (a b : list string) (c : string) :
  c ∈ intersection a b ↔ c ∈ a ∧ c ∈ b.
Proof.
  unfold intersection. rewrite elem_of_remove_dups, elem_of_filterb.
  by rewrite bool_decide_eq_true.
Qed.

Lemma elem_of_common_columns (anomalies normals : list string) (anomaly_col c : string) :
  c ∈ common_columns anomalies normals anomaly_col ↔
  (c ∈ anomalies ∧ c ∈ normals) ∨ (c = anomaly_col ∧ c ∈ anomalies).
Proof.
  unfold common_columns.
  destruct (bool_decide (anomaly_col ∉ intersection anomalies normals)) eqn:H1;
    destruct (bool_decide (anomaly_col ∈ anomalies)) eqn:H2; cbn [andb];
    rewrite ?elem_of_app, ?list_elem_of_singleton, !elem_of_intersection;
    try apply bool_decide_eq_true in H1; try apply bool_decide_eq_true in H2;
    try apply bool_decide_eq_false in H1; try apply bool_decide_eq_false in H2.
  - split; [intros [?| ->]; tauto|tauto].
  - split; [tauto|]. intros [?|[-> ?]]; tauto.
  - split; [tauto|]. intros [?|[-> ?]]; [tauto|].
    apply dec_stable in H1. by apply elem_of_intersection in H1.
  - split; [tauto|]. intros [?|[-> ?]]; tauto.
Qed.

Lemma NoDup_filterb (f : string → bool) (l : list string) :
  NoDup l → NoDup (List.filter f l).
Proof.
  induction 1 as [|x l Hx Hl IH]; simpl; [constructor|].
  destruct (f x); [|exact IH].
  constructor; [|exact IH]. rewrite elem_of_filterb. tauto.
Qed.

Lemma NoDup_common_columns (anomalies normals : list string) (anomaly_col : string) :
  NoDup (common_columns anomalies normals anomaly_col).
Proof.
  unfold common_columns, intersection.
  destruct (bool_decide (anomaly_col ∉ _)) eqn:H1; cbn [andb];
    [|apply NoDup_remove_dups].
  destruct (bool_decide (anomaly_col ∈ anomalies)); [|apply NoDup_remove_dups].
  apply bool_decide_eq_true in H1.
  apply NoDup_app. split; [apply NoDup_remove_dups|].
  split; [|apply NoDup_singleton].
  intros c Hc Hc'. apply list_elem_of_singleton in Hc' as ->. exact (H1 Hc).
Qed.

(** In a frame whose labels are distinct a label selects one column. *)
Lemma filter_label_NoDup (cols : list string) (l : string) :
  NoDup cols → l ∈ cols → List.filter (fun c => bool_decide (c = l)) cols = [l].
Proof.
  induction 1 as [|x cols Hx Hnd IH]; intros Hl; [by apply elem_of_nil in Hl|].
  simpl. destruct (bool_decide (x = l)) eqn:E.
  - apply bool_decide_eq_true in E. subst x. f_equal.
    clear IH Hl. induction cols as [|y cols IH]; [reflexivity|]. simpl.
    apply not_elem_of_cons in Hx as [Hne Hx]. apply NoDup_cons in Hnd as [_ Hnd].
    rewrite bool_decide_eq_false_2 by congruence. by apply IH.
  - apply bool_decide_eq_false in E.
    apply elem_of_cons in Hl as [-> | Hl]; [congruence|]. by apply IH.
Qed.

Lemma filterb_nil (f : string → bool) (l : list string) :
  (∀ c, c ∈ l → f c = false) → List.filter f l = [].
Proof.
  induction l as [|x l IH]; intros H; [reflexivity|]. simpl.
  rewrite (H x) by constructor. apply IH. intros c Hc. apply H. by constructor.
Qed.

Lemma select_present (labels cols : list string) :
  NoDup cols → (∀ l, l ∈ labels → l ∈ cols) → select labels cols = inr labels.
Proof.
  intros Hnd Hall. unfold select.
  rewrite filterb_nil.
  2:{ intros c Hc. apply bool_decide_eq_false. intros Hout. exact (Hout (Hall c Hc)). }
  f_equal. induction labels as [|l labels IH]; [reflexivity|].
  simpl. rewrite filter_label_NoDup; [|exact Hnd|apply Hall; constructor].
  simpl. f_equal. apply IH. intros c Hc. apply Hall. by constructor.
Qed.

Lemma select_missing (labels cols : list string) :
  List.filter (fun l => bool_decide (l ∉ cols)) labels ≠ [] →
  select labels cols =
    inl (KeyError (List.filter (fun l => bool_decide (l ∉ cols)) labels)).
Proof.
  intros Hne. unfold select.
  destruct (List.filter _ labels) as [|m missing]; [congruence|reflexivity].
Qed.

(** Lines 833-858 when no label occurs twice: what [X] holds before the
    reorder of line 859. *)
Lemma aligned_columns (test_columns : list string)
    (variables_used : list (string * string)) (final_df1_columns drop_cols : list string)
    (anomaly_col : string) :
  anomaly_col ∈ test_columns →
  NoDup (rename variables_used test_columns) → NoDup final_df1_columns →
  (anomaly_col ∉ drop_cols) → (anomaly_col ∉ final_df1_columns) →
  ∃ X, NoDup X ∧
    (∀ c, c ∈ X ↔
          c ∈ rename variables_used test_columns ∧ c ∈ final_df1_columns ∧ c ∉ drop_cols) ∧
    evaluate_features test_columns variables_used final_df1_columns drop_cols anomaly_col =
      select final_df1_columns X.
Proof.
  intros Hlabel HndA HndF Hkeep HnotF. unfold evaluate_features.
  rewrite (bool_decide_eq_true_2 _ Hlabel).
  set (anomalies := rename variables_used test_columns) in *.
  set (common_cols := common_columns anomalies final_df1_columns anomaly_col).
  pose proof (NoDup_common_columns anomalies final_df1_columns anomaly_col) as HndC.
  fold common_cols in HndC.
  assert (∀ c, c ∈ common_cols ↔
               (c ∈ anomalies ∧ c ∈ final_df1_columns) ∨ (c = anomaly_col ∧ c ∈ anomalies))
    as HC by (intros c; apply elem_of_common_columns).
  rewrite (select_present common_cols anomalies HndA).
  2:{ intros c Hc. apply HC in Hc. tauto. }
  cbn [bind].
  set (others := List.filter (fun c => bool_decide (c ≠ anomaly_col)) common_cols).
  assert (∀ c, c ∈ others ↔ c ∈ anomalies ∧ c ∈ final_df1_columns) as HO.
  { intros c. unfold others. rewrite elem_of_filterb, bool_decide_eq_true, HC.
    split; [tauto|]. intros [Ha Hf]. split; [tauto|]. by intros ->. }
  assert (NoDup others) as HndO by (by apply NoDup_filterb).
  rewrite (select_present others final_df1_columns HndF).
  2:{ intros c Hc. apply HO in Hc. tauto. }
  cbn [bind].
  assert (anomaly_col ∉ others) as HLO.
  { intros Hin. apply HO in Hin. tauto. }
  unfold setitem. rewrite (bool_decide_eq_false_2 _ HLO).
  assert (NoDup (others ++ [anomaly_col])) as HndN.
  { apply NoDup_app. split; [exact HndO|]. split; [|apply NoDup_singleton].
    intros c Hc Hc'. apply list_elem_of_singleton in Hc' as ->. exact (HLO Hc). }
  assert (∃ test_data, concat_columns common_cols (others ++ [anomaly_col]) = inr test_data ∧
            NoDup test_data ∧
            ∀ c, c ∈ test_data ↔ (c ∈ anomalies ∧ c ∈ final_df1_columns) ∨ c = anomaly_col)
    as (test_data & -> & HndT & HT).
  { unfold concat_columns. destruct (bool_decide (common_cols = _)) eqn:Heq.
    - apply bool_decide_eq_true in Heq. exists common_cols.
      split; [reflexivity|]. split; [exact HndC|]. intros c.
      rewrite Heq at 1. rewrite elem_of_app, list_elem_of_singleton, HO. reflexivity.
    - rewrite (bool_decide_eq_true_2 _ HndC), (bool_decide_eq_true_2 _ HndN). cbn [andb].
      eexists. split; [reflexivity|]. split.
      + apply NoDup_app. split; [exact HndC|]. split; [|by apply NoDup_filterb].
        intros c Hc Hc'. apply elem_of_filterb in Hc' as [_ Hc'].
        apply bool_decide_eq_true in Hc'. exact (Hc' Hc).
      + intros c. rewrite elem_of_app, elem_of_filterb, bool_decide_eq_true,
          elem_of_app, list_elem_of_singleton, HO, HC.
        destruct (decide (c ∈ anomalies)); destruct (decide (c ∈ final_df1_columns));
          destruct (decide (c = anomaly_col)); tauto. }
  cbn [bind].
  set (kept := List.filter (fun c => bool_decide (c ∉ drop_cols)) test_data).
  assert (∀ c, c ∈ kept ↔
               ((c ∈ anomalies ∧ c ∈ final_df1_columns) ∨ c = anomaly_col) ∧ c ∉ drop_cols)
    as HK.
  { intros c. unfold kept. by rewrite elem_of_filterb, bool_decide_eq_true, HT. }
  rewrite bool_decide_eq_true_2 by (apply HK; tauto).
  exists (List.filter (fun c => bool_decide (c ≠ anomaly_col)) kept).
  split; [by do 2 apply NoDup_filterb|]. split; [|reflexivity].
  intros c. rewrite elem_of_filterb, bool_decide_eq_true, HK.
  split; [tauto|]. intros (Ha & Hf & Hd).
  split; [tauto|]. by intros ->.
Qed.

(** C8, as the code has it.  Take a reference table that holds the label
    column and in which no two columns bear the same label after renaming,
    distinct training columns of which none is dropped, and a label column
    that is neither dropped nor a training column.  The column alignment of
    lines 832-859 then goes one way only.  If every training column is,
    after renaming, a column of the anomaly rows, the lines go through and
    hand the scaler the training columns in the training order, which are
    the intersection of the two column sets: a column that only the anomaly
    rows have is left out without a word.  If a training column is missing
    from the anomaly rows, the lines do not go through on the intersection:
    they raise a KeyError that names the missing training columns. *)
Theorem evaluate_features_spec (test_columns : list string)
    (variables_used : list (string * string)) (final_df1_columns drop_cols : list string)
    (anomaly_col : string) :
  anomaly_col ∈ test_columns →
  NoDup (rename variables_used test_columns) → NoDup final_df1_columns →
  (anomaly_col ∉ drop_cols) → (anomaly_col ∉ final_df1_columns) →
  (∀ c, c ∈ final_df1_columns → c ∉ drop_cols) →
  ((∀ c, c ∈ final_df1_columns → c ∈ rename variables_used test_columns) →
   evaluate_features test_columns variables_used final_df1_columns drop_cols anomaly_col =
     inr final_df1_columns ∧
   ∀ c, c ∈ final_df1_columns ↔
        c ∈ intersection (rename variables_used test_columns) final_df1_columns) ∧
  (∀ c, c ∈ final_df1_columns → c ∉ rename variables_used test_columns →
   evaluate_features test_columns variables_used final_df1_columns drop_cols anomaly_col =
     inl (KeyError (List.filter
                      (fun c => bool_decide (c ∉ rename variables_used test_columns))
                      final_df1_columns))).
Proof.
  intros Hlabel HndA HndF Hkeep HnotF Hdrop.
  destruct (aligned_columns test_columns variables_used final_df1_columns drop_cols
              anomaly_col Hlabel HndA HndF Hkeep HnotF) as (X & HndX & HX & ->).
  split.
  - intros Hall. split.
    + apply select_present; [exact HndX|]. intros c Hc. apply HX.
      split; [by apply Hall|]. split; [exact Hc|by apply Hdrop].
    + intros c. rewrite elem_of_intersection. split; [|tauto].
      intros Hc. split; [by apply Hall|exact Hc].
  - intros c Hc Hout.
    assert (List.filter (fun l => bool_decide (l ∉ X)) final_df1_columns =
            List.filter (fun l => bool_decide (l ∉ rename variables_used test_columns))
                        final_df1_columns) as Hsame.
    { apply List.filter_ext_in. intros l Hl. apply list_elem_of_In in Hl.
      apply bool_decide_ext. rewrite HX. split.
      - intros Hn Ha. apply Hn. split; [exact Ha|]. split; [exact Hl|by apply Hdrop].
      - intros Hn (Ha & _). exact (Hn Ha). }
    rewrite <- Hsame. apply select_missing. rewrite Hsame.
    intros Hnil. assert (c ∈ @nil string) as Hin; [|by apply elem_of_nil in Hin].
    rewrite <- Hnil. apply elem_of_filterb. split; [exact Hc|].
    by apply bool_decide_eq_true.
Qed.

(** A reference table with one column more than the training frame: the
    extra column is left out. *)
Lemma evaluate_features_spec_witness :
  ((∀ c, c ∈ ["ME RPM"] →
         c ∈ rename [("Shaft_RPM", "ME RPM"); ("ME_FO_IN_T", "ME F.O. IN TEMP.")]
               ["Shaft_RPM"; "ME_FO_IN_T"; "Anomaly Reason"]) →
   evaluate_features ["Shaft_RPM"; "ME_FO_IN_T"; "Anomaly Reason"]
     [("Shaft_RPM", "ME RPM"); ("ME_FO_IN_T", "ME F.O. IN TEMP.")]
     ["ME RPM"] ["me_load"] "Anomaly Reason" = inr ["ME RPM"] ∧
   ∀ c, c ∈ ["ME RPM"] ↔
        c ∈ intersection
              (rename [("Shaft_RPM", "ME RPM"); ("ME_FO_IN_T", "ME F.O. IN TEMP.")]
                 ["Shaft_RPM"; "ME_FO_IN_T"; "Anomaly Reason"]) ["ME RPM"]) ∧
  (∀ c, c ∈ ["ME RPM"] →
        c ∉ rename [("Shaft_RPM", "ME RPM"); ("ME_FO_IN_T", "ME F.O. IN TEMP.")]
              ["Shaft_RPM"; "ME_FO_IN_T"; "Anomaly Reason"] →
   evaluate_features ["Shaft_RPM"; "ME_FO_IN_T"; "Anomaly Reason"]
     [("Shaft_RPM", "ME RPM"); ("ME_FO_IN_T", "ME F.O. IN TEMP.")]
     ["ME RPM"] ["me_load"] "Anomaly Reason" =
     inl (KeyError (List.filter
            (fun c => bool_decide
               (c ∉ rename [("Shaft_RPM", "ME RPM"); ("ME_FO_IN_T", "ME F.O. IN TEMP.")]
                      ["Shaft_RPM"; "ME_FO_IN_T"; "Anomaly Reason"]))
            ["ME RPM"]))).
Proof.
  apply (evaluate_features_spec ["Shaft_RPM"; "ME_FO_IN_T"; "Anomaly Reason"]
           [("Shaft_RPM", "ME RPM"); ("ME_FO_IN_T", "ME F.O. IN TEMP.")]
           ["ME RPM"] ["me_load"] "Anomaly Reason").
  - apply (bool_decide_unpack _). vm_compute. exact I.
  - apply (bool_decide_unpack _). vm_compute. exact I.
  - apply (bool_decide_unpack _). vm_compute. exact I.
  - apply (bool_decide_unpack _). vm_compute. exact I.
  - apply (bool_decide_unpack _). vm_compute. exact I.
  - intros c Hc. apply list_elem_of_singleton in Hc as ->.
    apply (bool_decide_unpack _). vm_compute. exact I.
Defined.

(** C8, as the specification words it, fails.  The training frame holds
    shaft power, which the reference table lacks: the two column sets do not
    fully overlap, their intersection is the RPM column, and the step does
    not go through on it: the reorder by the training columns raises a
    KeyError for the shaft power. *)
Lemma missing_training_column_fails :
  intersection (rename [] ["ME RPM"; "Anomaly Reason"]) ["ME RPM"; "ME SHAFT POWER"] =
    ["ME RPM"] ∧
  evaluate_features ["ME RPM"; "Anomaly Reason"] [] ["ME RPM"; "ME SHAFT POWER"]
    ["me_load"] "Anomaly Reason" = inl (KeyError ["ME SHAFT POWER"]) ∧
  ¬ completes_on_intersection ["ME RPM"; "Anomaly Reason"] [] ["ME RPM"; "ME SHAFT POWER"]
      ["me_load"] "Anomaly Reason".
Proof.
  split; [vm_compute; reflexivity|]. split; [vm_compute; reflexivity|].
  intros (feats & Hrun & _). vm_compute in Hrun. discriminate.
Qed.

(** The other direction of the mismatch goes through: a column only the
    reference table has (after renaming) is left out. *)
Example extra_reference_column_is_dropped :
  evaluate_features ["Shaft_RPM"; "ME_FO_IN_T"; "Anomaly Reason"]
    [("Shaft_RPM", "ME RPM"); ("ME_FO_IN_T", "ME F.O. IN TEMP.")]
    ["ME RPM"] ["me_load"] "Anomaly Reason" = inr ["ME RPM"].
Proof. vm_compute. reflexivity. Qed.

(** Outside the theorem's conditions: a reference table that holds both
    [Shaft_RPM] and a column already named [ME RPM] has two columns of that
    label after renaming; both are selected, and the concatenation with the
    normal rows refuses the duplicate. *)
Example duplicate_label_after_rename_fails :
  rename [("Shaft_RPM", "ME RPM")] ["ME RPM"; "Shaft_RPM"; "Anomaly Reason"] =
    ["ME RPM"; "ME RPM"; "Anomaly Reason"] ∧
  evaluate_features ["ME RPM"; "Shaft_RPM"; "Anomaly Reason"] [("Shaft_RPM", "ME RPM")]
    ["ME RPM"] ["me_load"] "Anomaly Reason" = inl InvalidIndexError.
Proof. split; vm_compute; reflexivity. Qed.

(** A label column that is dropped is missed at line 854. *)
Example dropped_label_column_fails :
  evaluate_features ["ME RPM"; "Anomaly Reason"] [] ["ME RPM"] ["Anomaly Reason"]
    "Anomaly Reason" = inl (KeyError ["Anomaly Reason"]).
Proof. vm_compute. reflexivity. Qed.


(** *** The predictions behind the confusion matrix (lines 883-885)

    The curve counts a row as positive when its error is at least the
    threshold; line 883 predicts with a strict comparison.  scikit-learn
    takes every threshold of the curve from the scores it is given, so at
    the chosen threshold the two never agree. *)

Lemma filter_map_length {A : Type} (f : A → bool) (l : list A) :
  length (List.filter (fun b : bool => b) (map f l)) = length (List.filter f l).
Proof.
  induction l as [|x l IH]; [reflexivity|]. simpl.
  destruct (f x); simpl; by rewrite IH.
Qed.

Lemma filter_length_mono {A : Type} (f g : A → bool) (l : list A) :
  (∀ x, f x = true → g x = true) →
  (length (List.filter f l) <= length (List.filter g l))%nat.
Proof.
  intros Hfg. induction l as [|x l IH]; [reflexivity|]. simpl.
  destruct (f x) eqn:Hf.
  - rewrite (Hfg x Hf). simpl. lia.
  - destruct (g x); simpl; lia.
Qed.

Lemma filter_length_strict {A : Type} (f g : A → bool) (l : list A) (x : A) :
  (∀ y, f y = true → g y = true) →
  x ∈ l → f x = false → g x = true →
  (length (List.filter f l) < length (List.filter g l))%nat.
Proof.
  intros Hfg Hx Hf Hg. induction l as [|y l IH]; [by apply elem_of_nil in Hx|].
  pose proof (filter_length_mono f g l Hfg) as Hmono.
  apply elem_of_cons in Hx as [<- | Hx]; simpl.
  - rewrite Hf, Hg. simpl. lia.
  - specialize (IH Hx). destruct (f y) eqn:Hfy.
    + rewrite (Hfg y Hfy). simpl. lia.
    + destruct (g y); simpl; lia.
Qed.

Lemma select_best_threshold (precisions recalls thresholds : list Q) (bp : BestPoint) :
  select_best precisions recalls thresholds = Some bp →
  thresholds !! best_idx bp = Some (best_threshold bp).
Proof.
  unfold select_best. cbv zeta.
  destruct (f1_scores precisions recalls) as [|q l]; [discriminate|].
  intros Hbp. repeat case_match; try discriminate.
  apply (inj Some) in Hbp. subst bp. assumption.
Qed.

Section Tally.

Variable precision_recall_curve : list bool → list Q → list Q * list Q * list Q.

(** Every threshold of the curve is one of the scores. *)
Hypothesis thresholds_are_scores :
  ∀ y_true scores t, t ∈ (precision_recall_curve y_true scores).2 → t ∈ scores.

(** X9.  The confusion matrix is not the chosen operating point.  Whenever
    the selection returns, some row has exactly the chosen threshold as its
    error; line 883 predicts that row normal, while the curve (and so the
    reported precision, recall and F1) counted it as flagged.  The rows
    flagged in the confusion matrix are therefore strictly fewer than the
    rows the curve flagged at that threshold. *)
Theorem threshold_row_is_predicted_normal (y_true : list bool)
    (reconstruction_error : list Q) (bp : BestPoint) :
  best_operating_point precision_recall_curve y_true reconstruction_error = Some bp →
  (∃ i, reconstruction_error !! i = Some (best_threshold bp) ∧
        y_pred (best_threshold bp) reconstruction_error !! i = Some false) ∧
  (length (List.filter (fun b : bool => b)
             (y_pred (best_threshold bp) reconstruction_error))
   < length (List.filter (fun e => Qle_bool (best_threshold bp) e)
               reconstruction_error))%nat.
Proof.
  unfold best_operating_point. intros Hbp.
  pose proof (thresholds_are_scores y_true reconstruction_error) as Hin.
  destruct (precision_recall_curve y_true reconstruction_error) as [[p r] th].
  cbn [snd] in Hin. apply select_best_threshold in Hbp.
  apply list_elem_of_lookup_2, Hin in Hbp.
  assert (Qltb (best_threshold bp) (best_threshold bp) = false) as Hstrict.
  { apply Qltb_ge. apply Qle_refl. }
  split.
  - apply list_elem_of_lookup_1 in Hbp as [i Hi]. exists i. split; [exact Hi|].
    unfold y_pred. by rewrite list_lookup_fmap, Hi; simpl; rewrite Hstrict.
  - unfold y_pred. rewrite filter_map_length.
    apply (filter_length_strict _ _ _ (best_threshold bp)); [|exact Hbp|exact Hstrict|].
    + intros e He. apply Qltb_lt in He. apply Qle_bool_iff. by apply Qlt_le_weak.
    + apply Qle_bool_iff. apply Qle_refl.
Qed.

End Tally.

Lemma insert_distinct_elem (x t : Q) (l : list Q) :
  t ∈ insert_distinct x l → t = x ∨ t ∈ l.
Proof.
  induction l as [|y l IH]; simpl.
  - rewrite list_elem_of_singleton. tauto.
  - destruct (Qltb x y); [rewrite !elem_of_cons; tauto|].
    destruct (Qeq_bool x y); [tauto|].
    rewrite !elem_of_cons. intros [-> | Ht]; [tauto|].
    destruct (IH Ht); tauto.
Qed.

Lemma distinct_sorted_elem (t : Q) (scores : list Q) :
  t ∈ distinct_sorted scores → t ∈ scores.
Proof.
  unfold distinct_sorted. induction scores as [|x scores IH]; simpl; [done|].
  intros Ht. apply insert_distinct_elem in Ht as [-> | Ht]; [constructor|].
  apply list_elem_of_further. by apply IH.
Qed.

Definition sample_best : BestPoint :=
  Eval vm_compute in
    default (mkBest 0 0 0 0 0)
      (best_operating_point precision_recall_curve_ref sample_y_true sample_errors).

Lemma threshold_row_is_predicted_normal_witness :
  (∃ i, sample_errors !! i = Some (best_threshold sample_best) ∧
        y_pred (best_threshold sample_best) sample_errors !! i = Some false) ∧
  (length (List.filter (fun b : bool => b)
             (y_pred (best_threshold sample_best) sample_errors))
   < length (List.filter (fun e => Qle_bool (best_threshold sample_best) e)
               sample_errors))%nat.
Proof.
  apply (threshold_row_is_predicted_normal precision_recall_curve_ref
           (fun y_true scores t => distinct_sorted_elem t scores)
           sample_y_true sample_errors sample_best).
  vm_compute. reflexivity.
Defined.

End Evaluation.

(** ** Outlier filtering: [further_filtering] *)

Module Filtering.

Definition power_thr : Q := 3500.
Definition cyl1_temp_thr : Q := 260.
Definition shaft_power : string := "ME SHAFT POWER".
Definition cyl1_temp : string := "ME EXH. GAS OUT TEMP.CYL. NO.1".

(** One entry of [df[col] > thr]; NaN compares false. *)
Definition above (thr : Q) (c : cell) : bool :=
  match c with Some x => Qltb thr x | None => false end.

(** The test of [df.dropna()] on one row: no cell is missing. *)
Definition complete (cols : list string) (r : Row) : bool :=
  forallb (fun c => notna (get c r)) cols.

(** [sorted] values for the percentile. *)
Fixpoint insert_sorted (x : Q) (l : list Q) : list Q :=
  match l with
  | [] => [x]
  | y :: l' => if Qle_bool x y then x :: y :: l' else y :: insert_sorted x l'
  end.

Definition sort_values (a : list Q) : list Q := fold_right insert_sorted [] a.

(** [np.percentile(a, q)] with the default linear interpolation: the value
    at the fractional rank [(n - 1) * q / 100] of the sorted array.  An empty
    array raises. *)
Definition percentile (a : list Q) (q : Q) : option Q :=
  match a with
  | [] => None
  | x :: _ =>
      let s := sort_values a in
      let rank := inject_Z (Z.of_nat (length a - 1)) * q / 100 in
      let lo := Z.to_nat (Qfloor rank) in
      let frac := rank - inject_Z (Qfloor rank) in
      let v_lo := nth lo s x in
      let v_hi := nth (Nat.min (S lo) (length a - 1)) s x in
      Some (v_lo + (v_hi - v_lo) * frac)
  end.

(** Lines 614-616: the rows that reach the PCA. *)
Definition operational_rows (cols : list string) (l : list Row) : list Row :=
  let l := boolean_index (map (fun r => above power_thr (get shaft_power r)) l) l in
  let l := boolean_index (map (fun r => above cyl1_temp_thr (get cyl1_temp r)) l) l in
  dropna_any cols l.

Definition operational_batch (steady_df : DataFrame) : DataFrame :=
  mkFrame (columns steady_df) (operational_rows (columns steady_df) (rows steady_df)).

(** The rule of the first three filters in one test. *)
Definition plausible (cols : list string) (r : Row) : bool :=
  above power_thr (get shaft_power r) && above cyl1_temp_thr (get cyl1_temp r) &&
  complete cols r.

(** The same rule as the specification words it, "below" a threshold being
    strictly below; kept apart to be compared with [plausible]. *)
Definition below (thr : Q) (c : cell) : bool :=
  match c with Some x => Qltb x thr | None => false end.

Definition plausible_as_worded (cols : list string) (r : Row) : bool :=
  negb (below power_thr (get shaft_power r)) &&
  negb (below cyl1_temp_thr (get cyl1_temp r)) &&
  complete cols r.

Section WithPCA.

(** Lines 618-626: standardise the batch, fit a PCA with 15 components,
    rebuild every row and return the mean squared residual per row;
    [None] where scikit-learn raises (a batch with fewer than 15 rows or
    columns, for one). *)
Variable reconstruction_error_pca : DataFrame → option (list Q).

(** The step.  A column looked up by name must exist (KeyError), and the
    boolean mask of line 629 must have one entry per row (IndexError). *)
Definition further_filtering (steady_df : DataFrame) : option DataFrame :=
  if bool_decide (shaft_power ∈ columns steady_df) &&
     bool_decide (cyl1_temp ∈ columns steady_df) then
    let batch := operational_batch steady_df in
    match reconstruction_error_pca batch with
    | Some errs =>
        if (length errs =? length (rows batch))%nat then
          match percentile errs 99 with
          | Some perc_99 =>
              Some (mkFrame (columns batch)
                      (boolean_index (map (fun e => Qle_bool e perc_99) errs) (rows batch)))
          | None => None
          end
        else None
    | None => None
    end
  else None.

(** The step with the first three filters as the specification words them. *)
Definition further_filtering_as_worded (steady_df : DataFrame) : option DataFrame :=
  let batch :=
    mkFrame (columns steady_df)
      (List.filter (plausible_as_worded (columns steady_df)) (rows steady_df)) in
  match reconstruction_error_pca batch with
  | Some errs =>
      match percentile errs 99 with
      | Some perc_99 =>
          Some (mkFrame (columns batch)
                  (boolean_index (map (fun e => Qle_bool e perc_99) errs) (rows batch)))
      | None => None
      end
  | None => None
  end.


Lemma filter_filter_and {A : Type} (f g : A → bool) (l : list A) :
  List.filter g (List.filter f l) = List.filter (fun x => f x && g x) l.
Proof.
  induction l as [|x l IH]; [reflexivity|]. simpl.
  destruct (f x); simpl; [destruct (g x)|]; by rewrite IH.
Qed.

Lemma operational_rows_filter (cols : list string) (l : list Row) :
  operational_rows cols l = List.filter (plausible cols) l.
Proof.
  unfold operational_rows, dropna_any.
  rewrite !boolean_index_map, !filter_filter_and.
  apply List.filter_ext. intros r. unfold plausible. by rewrite andb_assoc.
Qed.

Lemma boolean_index_zip {A B : Type} (f : B → bool) (l : list A) (k : list B) :
  length k = length l →
  boolean_index (map f k) l = map fst (List.filter (fun xy => f xy.2) (zip l k)).
Proof.
  revert k. induction l as [|x l IH]; intros [|y k] Hlen; try discriminate;
    [reflexivity|].
  simpl in *. destruct (f y); simpl; rewrite IH by lia; reflexivity.
Qed.

(** C6, as the code has it.  When the step returns, its rows are the rows of
    the batch whose residual is at most the 99th percentile of the batch's
    residuals, and the batch is the rows of the input whose shaft power is
    strictly above 3500, whose cylinder-1 exhaust temperature is strictly
    above 260 and which have no missing value.  So a row is dropped if and
    only if its shaft power is at or below 3500 (or missing), or its
    cylinder-1 temperature is at or below 260, or one of its values is
    missing, or its residual exceeds the batch's 99th percentile. *)
Theorem further_filtering_keeps (steady_df out : DataFrame) :
  further_filtering steady_df = Some out →
  columns out = columns steady_df ∧
  rows (operational_batch steady_df) =
    List.filter (plausible (columns steady_df)) (rows steady_df) ∧
  ∃ errs perc_99,
    reconstruction_error_pca (operational_batch steady_df) = Some errs ∧
    length errs = length (rows (operational_batch steady_df)) ∧
    percentile errs 99 = Some perc_99 ∧
    rows out =
      map fst (List.filter (fun re => Qle_bool re.2 perc_99)
                           (zip (rows (operational_batch steady_df)) errs)).
Proof.
  unfold further_filtering. intros Hrun.
  destruct (bool_decide (shaft_power ∈ columns steady_df) &&
            bool_decide (cyl1_temp ∈ columns steady_df)); [|discriminate].
  destruct (reconstruction_error_pca (operational_batch steady_df)) as [errs|] eqn:Herrs;
    [|discriminate].
  destruct (length errs =? length (rows (operational_batch steady_df)))%nat eqn:Hlen;
    [|discriminate].
  apply Nat.eqb_eq in Hlen.
  destruct (percentile errs 99) as [perc_99|] eqn:Hperc; [|discriminate].
  injection Hrun as <-. cbn [columns rows].
  split; [reflexivity|]. split; [apply operational_rows_filter|].
  exists errs, perc_99. repeat (split; [first [reflexivity | assumption]|]).
  apply (boolean_index_zip (fun e => Qle_bool e perc_99)). exact Hlen.
Qed.

Lemma boolean_index_elem {A : Type} (mask : list bool) (l : list A) (x : A) :
  x ∈ boolean_index mask l → x ∈ l.
Proof.
  revert l. induction mask as [|m mask IH]; intros [|y l] Hx; simpl in Hx;
    try (by apply elem_of_nil in Hx).
  destruct m.
  - apply elem_of_cons in Hx as [-> | Hx]; [constructor|].
    apply list_elem_of_further. by apply IH.
  - apply list_elem_of_further. by apply IH.
Qed.

(** Whatever the residuals are, a row of the output passed the first three
    filters. *)
Lemma further_filtering_subset (steady_df out : DataFrame) (r : Row) :
  further_filtering steady_df = Some out → r ∈ rows out →
  plausible (columns steady_df) r = true.
Proof.
  unfold further_filtering. intros Hrun Hr.
  destruct (bool_decide (shaft_power ∈ columns steady_df) &&
            bool_decide (cyl1_temp ∈ columns steady_df)); [|discriminate].
  destruct (reconstruction_error_pca (operational_batch steady_df)) as [errs|];
    [|discriminate].
  destruct (length errs =? length (rows (operational_batch steady_df)))%nat;
    [|discriminate].
  destruct (percentile errs 99) as [perc_99|]; [|discriminate].
  injection Hrun as <-. cbn [columns rows] in Hr.
  apply boolean_index_elem in Hr. rewrite operational_rows_filter in Hr.
  apply list_elem_of_In, List.filter_In in Hr. tauto.
Qed.

End WithPCA.

(** *** Running the step

    Two stand-ins for the PCA residual, neither of them scikit-learn's: the
    squared distance of shaft power from 4000 (in thousands), and the zero
    residual of a batch that 15 components rebuild exactly.  They answer on
    every batch, where scikit-learn raises on one with fewer than 15 rows or
    columns, so that the step can be run on small frames; the theorems hold
    for every residual function and do not use them. *)

Definition power_deviation (batch : DataFrame) : option (list Q) :=
  Some (map (fun r => match get shaft_power r with
                      | Some x => ((x - 4000) / 1000) * ((x - 4000) / 1000)
                      | None => 0
                      end) (rows batch)).

Definition exact_rebuild (batch : DataFrame) : option (list Q) :=
  Some (map (fun _ => 0) (rows batch)).

Definition engine_row (t : Z) (power temp revs : cell) : Row :=
  mkRow t (<[shaft_power := power]> (<[cyl1_temp := temp]> (<["ME RPM" := revs]> ∅))).

Definition small_frame : DataFrame :=
  mkFrame [shaft_power; cyl1_temp; "ME RPM"]
    [ engine_row 0 (Some 4000) (Some 300) (Some 80);
      engine_row 300 (Some 3000) (Some 300) (Some 80);
      engine_row 600 (Some 5000) (Some 250) (Some 80);
      engine_row 900 (Some 4200) (Some 310) None;
      engine_row 1200 (Some 6000) (Some 320) (Some 85);
      engine_row 1500 (Some 4100) (Some 305) (Some 81) ].

Definition small_frame_filtered : DataFrame :=
  mkFrame [shaft_power; cyl1_temp; "ME RPM"]
    [ engine_row 0 (Some 4000) (Some 300) (Some 80);
      engine_row 1500 (Some 4100) (Some 305) (Some 81) ].

Example small_frame_run :
  further_filtering power_deviation small_frame = Some small_frame_filtered.
Proof. vm_compute. reflexivity. Qed.

Lemma further_filtering_keeps_witness :
  columns small_frame_filtered = columns small_frame ∧
  rows (operational_batch small_frame) =
    List.filter (plausible (columns small_frame)) (rows small_frame) ∧
  ∃ errs perc_99,
    power_deviation (operational_batch small_frame) = Some errs ∧
    length errs = length (rows (operational_batch small_frame)) ∧
    percentile errs 99 = Some perc_99 ∧
    rows small_frame_filtered =
      map fst (List.filter (fun re => Qle_bool re.2 perc_99)
                           (zip (rows (operational_batch small_frame)) errs)).
Proof.
  apply (further_filtering_keeps power_deviation small_frame small_frame_filtered).
  vm_compute. reflexivity.
Defined.


(** A frame of the step's own shape: the 31 channels, every reading at the
    middle of its valid range, shaft power set per row.  Sixteen rows run
    above the load threshold; the last row runs at 3500 exactly. *)
Definition channels : list string := RangeValidation.range_dict.*1.

Definition full_row (t : Z) (power : Q) : Row :=
  mkRow t (<[shaft_power := Some power]>
           (list_to_map (map (fun e => (e.1, Some (Qred ((e.2.1 + e.2.2) / 2))))
                             RangeValidation.range_dict))).

Definition threshold_frame : DataFrame :=
  mkFrame channels
    (map (fun k => full_row (300 * Z.of_nat k) (4000 + inject_Z (Z.of_nat k))) (seq 0 16)
     ++ [full_row 4800 3500]).

(** C6, as the specification words it, fails at the threshold itself.  The
    last row of [threshold_frame] is not below the load threshold, not below
    the temperature threshold and has no missing value, so the worded rule
    lets it reach the PCA; the code's strict comparison drops it before any
    residual exists.  With every row rebuilt exactly (only one channel
    varies) the worded step keeps 17 rows and the code keeps 16; and whatever
    the residuals are, the row is not in the code's output. *)
Lemma load_at_threshold_is_dropped :
  get shaft_power (full_row 4800 3500) = Some 3500 ∧
  plausible_as_worded channels (full_row 4800 3500) = true ∧
  plausible channels (full_row 4800 3500) = false ∧
  option_map (fun d => length (rows d))
    (further_filtering exact_rebuild threshold_frame) = Some 16%nat ∧
  option_map (fun d => length (rows d))
    (further_filtering_as_worded exact_rebuild threshold_frame) = Some 17%nat ∧
  ∀ recon out, further_filtering recon threshold_frame = Some out →
    full_row 4800 3500 ∉ rows out.
Proof.
  assert (plausible channels (full_row 4800 3500) = false) as Hdrop
    by (vm_compute; reflexivity).
  repeat split; try (vm_compute; reflexivity).
  intros recon out Hrun Hin.
  pose proof (further_filtering_subset recon threshold_frame out _ Hrun Hin) as Hkeep.
  change (columns threshold_frame) with channels in Hkeep. congruence.
Qed.


(** *** How much the residual filter can drop *)

Lemma insert_sorted_perm (x : Q) (l : list Q) : insert_sorted x l ≡ₚ x :: l.
Proof.
  induction l as [|y l IH]; simpl; [reflexivity|].
  destruct (Qle_bool x y); [reflexivity|]. rewrite IH. apply Permutation_swap.
Qed.

Lemma sort_values_perm (a : list Q) : sort_values a ≡ₚ a.
Proof.
  unfold sort_values. induction a as [|x a IH]; simpl; [reflexivity|].
  by rewrite insert_sorted_perm, IH.
Qed.

Lemma insert_sorted_sorted (x : Q) (l : list Q) :
  StronglySorted Qle l → StronglySorted Qle (insert_sorted x l).
Proof.
  induction 1 as [|y l Hl IH Hy]; simpl.
  { constructor; constructor. }
  destruct (Qle_bool x y) eqn:E.
  - apply Qle_bool_iff in E. constructor; [by constructor|].
    constructor; [exact E|].
    eapply Forall_impl; [exact Hy|]. intros z Hz. by apply Qle_trans with y.
  - constructor; [exact IH|].
    rewrite insert_sorted_perm. constructor; [|exact Hy].
    destruct (Qlt_le_dec y x) as [Hlt | Hle]; [by apply Qlt_le_weak|].
    apply Qle_bool_iff in Hle. congruence.
Qed.

Lemma sort_values_sorted (a : list Q) : StronglySorted Qle (sort_values a).
Proof.
  unfold sort_values. induction a as [|x a IH]; simpl; [constructor|].
  by apply insert_sorted_sorted.
Qed.

Lemma sorted_nth (s : list Q) (d : Q) (i j : nat) :
  StronglySorted Qle s → (i <= j < length s)%nat → nth i s d <= nth j s d.
Proof.
  intros Hs. revert i j. induction Hs as [|x s Hs IH Hx]; intros i j Hij.
  { simpl in Hij. lia. }
  destruct j as [|j].
  { assert (i = 0%nat) as -> by lia. apply Qle_refl. }
  destruct i as [|i]; simpl.
  - rewrite List.Forall_forall in Hx. apply Hx. apply nth_In. simpl in Hij. lia.
  - apply IH. simpl in Hij. lia.
Qed.

(** How many residuals are at most [p]. *)
Definition count_le (p : Q) (l : list Q) : nat :=
  length (List.filter (fun e => Qle_bool e p) l).

Lemma count_le_perm (p : Q) (l k : list Q) : l ≡ₚ k → count_le p l = count_le p k.
Proof.
  unfold count_le. induction 1 as [|x l k _ IH|x y l|l k m _ IH1 _ IH2]; simpl.
  - reflexivity.
  - destruct (Qle_bool x p); simpl; by rewrite IH.
  - destruct (Qle_bool x p), (Qle_bool y p); reflexivity.
  - by rewrite IH1.
Qed.

Lemma count_le_sorted (p d : Q) (s : list Q) (k : nat) :
  StronglySorted Qle s → (k < length s)%nat → nth k s d <= p →
  (S k <= count_le p s)%nat.
Proof.
  unfold count_le. intros Hs. revert k.
  induction Hs as [|x s Hs IH Hx]; intros k Hk Hp; [simpl in Hk; lia|].
  assert (x <= p) as Hxp.
  { apply Qle_trans with (nth k (x :: s) d); [|exact Hp].
    apply (sorted_nth (x :: s) d 0 k); [by constructor|lia]. }
  apply Qle_bool_iff in Hxp. simpl. rewrite Hxp. simpl.
  destruct k as [|k]; [lia|]. simpl in Hk, Hp.
  assert (k < length s)%nat as Hk' by lia. specialize (IH k Hk' Hp). lia.
Qed.

Lemma boolean_index_count {A : Type} (p : Q) (errs : list Q) (l : list A) :
  length errs = length l →
  length (boolean_index (map (fun e => Qle_bool e p) errs) l) = count_le p errs.
Proof.
  unfold count_le. revert l. induction errs as [|e errs IH]; intros [|x l] Hlen;
    try discriminate; [reflexivity|].
  simpl in *. destruct (Qle_bool e p); simpl; rewrite IH by lia; reflexivity.
Qed.

(** The percentile's rank, as a whole number. *)
Lemma rank_floor (m : nat) :
  Qfloor (inject_Z (Z.of_nat m) * 99 / 100) = (Z.of_nat m * 99 / 100)%Z.
Proof.
  unfold Qfloor, Qdiv, Qmult, Qinv, inject_Z. cbn [Qnum Qden].
  change (Z.pos (1 * 1 * 100)) with 100%Z. f_equal. lia.
Qed.

(** The 99th percentile is at least the residual at the floor of its rank
    in the sorted batch, so that many residuals and one more pass. *)
Lemma percentile_99_keeps (errs : list Q) (perc_99 : Q) :
  percentile errs 99 = Some perc_99 →
  (1 <= length errs)%nat ∧
  ((length errs - 1) * 99 / 100 + 1 <= count_le perc_99 errs)%nat.
Proof.
  unfold percentile. destruct errs as [|x errs'] eqn:E; [discriminate|].
  rewrite <- E. intros Hp. apply (inj Some) in Hp. subst perc_99.
  assert (length errs = S (length errs')) as Hn by (by rewrite E).
  split; [lia|].
  set (m := (length errs - 1)%nat).
  rewrite (rank_floor m).
  set (rank := inject_Z (Z.of_nat m) * 99 / 100).
  set (lo := Z.to_nat (Z.of_nat m * 99 / 100)).
  assert (lo = (m * 99 / 100)%nat) as Hlo.
  { unfold lo. rewrite <- (Nat2Z.id (m * 99 / 100)). f_equal.
    rewrite Nat2Z.inj_div, Nat2Z.inj_mul. reflexivity. }
  assert (lo <= m)%nat as Hlom.
  { rewrite Hlo. apply Nat.Div0.div_le_upper_bound. lia. }
  pose proof (sort_values_sorted errs) as Hsorted.
  pose proof (sort_values_perm errs) as Hperm.
  assert (length (sort_values errs) = length errs) as Hlen
    by (by apply Permutation_length).
  rewrite (count_le_perm _ _ _ (Permutation_sym Hperm)).
  rewrite <- Hlo. rewrite Nat.add_1_r.
  apply (count_le_sorted _ x); [exact Hsorted|lia|].
  set (v_lo := nth lo (sort_values errs) x).
  set (v_hi := nth (Nat.min (S lo) m) (sort_values errs) x).
  assert (v_lo <= v_hi) as Hle.
  { apply sorted_nth; [exact Hsorted|]. lia. }
  assert (0 <= rank - inject_Z (Z.of_nat m * 99 / 100)) as Hfrac.
  { rewrite <- (rank_floor m). fold rank.
    pose proof (Qfloor_le rank) as Hf.
    apply (Qplus_le_l _ _ (inject_Z (Qfloor rank))). ring_simplify. exact Hf. }
  assert (0 <= (v_hi - v_lo) * (rank - inject_Z (Z.of_nat m * 99 / 100))) as Hpos.
  { apply Qmult_le_0_compat; [|exact Hfrac].
    apply (Qplus_le_l _ _ v_lo). ring_simplify. exact Hle. }
  apply Qle_trans with (v_lo + 0); [rewrite Qplus_0_r; apply Qle_refl|].
  apply Qplus_le_r. exact Hpos.
Qed.


(** X8.  The residual filter is batch-relative but bounded.  When the step
    returns, the batch that reached the PCA was not empty, and with [n] rows
    in it at least [floor(0.99 (n - 1)) + 1] rows survive: the filter drops
    at most one row in a hundred (rounded up), never all of them, and none
    at all from a batch of one. *)
Theorem residual_filter_keeps_most (reconstruction_error_pca : DataFrame → option (list Q))
    (steady_df out : DataFrame) :
  further_filtering reconstruction_error_pca steady_df = Some out →
  (1 <= length (rows (operational_batch steady_df)))%nat ∧
  ((length (rows (operational_batch steady_df)) - 1) * 99 / 100 + 1
     <= length (rows out))%nat ∧
  (length (rows out) <= length (rows (operational_batch steady_df)))%nat.
Proof.
  unfold further_filtering. intros Hrun.
  destruct (bool_decide (shaft_power ∈ columns steady_df) &&
            bool_decide (cyl1_temp ∈ columns steady_df)); [|discriminate].
  destruct (reconstruction_error_pca (operational_batch steady_df)) as [errs|];
    [|discriminate].
  destruct (length errs =? length (rows (operational_batch steady_df)))%nat eqn:Hlen;
    [|discriminate].
  apply Nat.eqb_eq in Hlen.
  destruct (percentile errs 99) as [perc_99|] eqn:Hperc; [|discriminate].
  apply (inj Some) in Hrun. subst out. cbn [rows].
  destruct (percentile_99_keeps errs perc_99 Hperc) as [Hne Hkeep].
  rewrite (boolean_index_count perc_99 errs _ Hlen).
  rewrite <- Hlen. split; [exact Hne|]. split; [exact Hkeep|].
  unfold count_le. apply List.filter_length_le.
Qed.

Lemma residual_filter_keeps_most_witness :
  (1 <= length (rows (operational_batch small_frame)))%nat ∧
  ((length (rows (operational_batch small_frame)) - 1) * 99 / 100 + 1
     <= length (rows small_frame_filtered))%nat ∧
  (length (rows small_frame_filtered) <= length (rows (operational_batch small_frame)))%nat.
Proof.
  apply (residual_filter_keeps_most power_deviation small_frame small_frame_filtered).
  vm_compute. reflexivity.
Defined.

End Filtering.

(** ** Ingestion: the query windows of [download_data] *)

Module Ingestion.

Local Open Scope Z_scope.

(** Datetimes are whole seconds counted from [start_date]
    (2024-06-01 00:00:00); [end_date] (2025-07-25 00:00:00) is 419 days
    later; [step] is [timedelta(days=15)]. *)
Definition start_date : Z := 0.
Definition end_date : Z := 419 * 86400.
Definition step : Z := 15 * 86400.

(** The loop of lines 171-173 and 421: one window per turn, from
    [current_start] to [min(current_start + step - 1 s, end_date)], the next
    turn starting one second after the window's end.  The turns are counted
    down from [fuel]. *)
Fixpoint windows_from (fuel : nat) (end_date step current_start : Z) : list (Z * Z) :=
  match fuel with
  | O => []
  | S fuel' =>
      if current_start <? end_date then
        let current_end := Z.min (current_start + step - 1) end_date in
        (current_start, current_end) :: windows_from fuel' end_date step (current_end + 1)
      else []
  end.

(** The windows the step queries ([BETWEEN start_str AND end_str], both ends
    included).  A window but the last advances by [step], so
    [(end_date - start_date) / step + 1] turns are enough; the theorem below
    shows the loop condition false after the last window. *)
Definition query_windows (start_date end_date step : Z) : list (Z * Z) :=
  windows_from (Z.to_nat ((end_date - start_date) / step + 1)) end_date step start_date.

Lemma windows_from_done (fuel : nat) (end_date step current_start : Z) :
  end_date <= current_start → windows_from fuel end_date step current_start = [].
Proof.
  intros H. destruct fuel as [|fuel]; [reflexivity|]. simpl.
  destruct (current_start <? end_date) eqn:E; [|reflexivity].
  apply Z.ltb_lt in E. lia.
Qed.

Lemma turns_left (end_date step cs : Z) :
  0 < step → cs + step < end_date →
  (end_date - (cs + step)) / step + 1 = (end_date - cs) / step.
Proof.
  intros Hs Hlt.
  replace (end_date - cs) with ((end_date - (cs + step)) + 1 * step) by lia.
  rewrite Z.div_add by lia. lia.
Qed.

Lemma windows_from_spec (fuel : nat) (end_date step cs : Z) :
  0 < step →
  (cs < end_date → (end_date - cs) / step + 1 <= Z.of_nat fuel) →
  Forall (fun c => cs <= c.1 ∧ c.1 <= c.2 ∧ c.2 <= end_date ∧ c.2 - c.1 < step)
         (windows_from fuel end_date step cs) ∧
  StronglySorted (fun c1 c2 => c1.2 < c2.1) (windows_from fuel end_date step cs) ∧
  (∀ t, cs <= t < end_date →
        Exists (fun c => c.1 <= t <= c.2) (windows_from fuel end_date step cs)) ∧
  (cs < end_date → ∃ b rest, windows_from fuel end_date step cs = (cs, b) :: rest) ∧
  (∀ i c1 c2, windows_from fuel end_date step cs !! i = Some c1 →
              windows_from fuel end_date step cs !! S i = Some c2 →
              c2.1 = c1.2 + 1) ∧
  (cs < end_date →
   ∃ c, last (windows_from fuel end_date step cs) = Some c ∧ end_date - 1 <= c.2).
Proof.
  intros Hstep. revert cs. induction fuel as [|fuel IH]; intros cs Hfuel.
  { assert (end_date <= cs) as Hdone.
    { destruct (Z_lt_le_dec cs end_date) as [Hlt|]; [|assumption].
      specialize (Hfuel Hlt).
      assert (0 <= (end_date - cs) / step) by (apply Z.div_pos; lia). lia. }
    rewrite windows_from_done by exact Hdone.
    split; [constructor|]. split; [constructor|].
    split; [intros t Ht; lia|]. split; [intros Hlt; lia|].
    split; [|intros Hlt; lia].
    intros i c1 c2 H. by rewrite lookup_nil in H. }
  cbn [windows_from]. destruct (cs <? end_date) eqn:Hcs.
  2:{ apply Z.ltb_ge in Hcs.
      split; [constructor|]. split; [constructor|].
      split; [intros t Ht; lia|]. split; [intros Hlt; lia|].
      split; [|intros Hlt; lia].
      intros i c1 c2 H. by rewrite lookup_nil in H. }
  apply Z.ltb_lt in Hcs. specialize (Hfuel Hcs).
  set (ce := Z.min (cs + step - 1) end_date).
  assert (cs <= ce ∧ ce <= end_date ∧ ce - cs < step) as Hce by (unfold ce; lia).
  destruct (IH (ce + 1)) as (Hall & Hsort & Hcover & Hfirst & Hnext & Hlast).
  { intros Hmore. assert (ce = cs + step - 1) as E by (unfold ce in *; lia).
    rewrite E. replace (cs + step - 1 + 1) with (cs + step) by lia.
    rewrite turns_left by lia. lia. }
  split; [|split; [|split; [|split; [|split]]]].
  - constructor; [simpl; lia|].
    eapply Forall_impl; [exact Hall|]. simpl. intros c Hc. lia.
  - constructor; [exact Hsort|].
    eapply Forall_impl; [exact Hall|]. simpl. intros c Hc. lia.
  - intros t Ht. destruct (Z_le_gt_dec t ce) as [Hle | Hgt].
    + apply Exists_cons_hd. simpl. lia.
    + apply Exists_cons_tl. apply Hcover. lia.
  - intros _. by eexists _, _.
  - intros [|i] c1 c2 H1 H2.
    + injection H1 as <-. cbn [snd]. rewrite lookup_cons in H2.
      destruct (Z_lt_le_dec (ce + 1) end_date) as [Hlt | Hge].
      * destruct (Hfirst Hlt) as (b & rest & E). rewrite E in H2.
        injection H2 as <-. reflexivity.
      * rewrite windows_from_done in H2 by lia. by rewrite lookup_nil in H2.
    + rewrite lookup_cons in H1. rewrite (lookup_cons _ _ (S (S i))) in H2.
      by apply (Hnext i).
  - intros _. destruct (Z_lt_le_dec (ce + 1) end_date) as [Hlt | Hge].
    + destruct (Hlast Hlt) as (c & Hc & Hend). exists c. split; [|exact Hend].
      destruct (Hfirst Hlt) as (b & rest & E). rewrite E in *. exact Hc.
    + rewrite windows_from_done by lia. exists (cs, ce). split; [reflexivity|].
      simpl. lia.
Qed.

(** X7.  The query windows tile the period.  For a positive step and a start
    before the end: the first window starts at [start_date]; every window
    is non-empty, shorter than [step] and ends by [end_date]; each window
    starts one second after the previous one ends, so no second is queried
    twice; every second from [start_date] up to, but not always including,
    [end_date] lies in a window; and the last window ends at [end_date] or
    one second before it, where the loop stops. *)
Theorem query_windows_tile (start_date end_date step : Z) :
  0 < step → start_date < end_date →
  (∃ b rest, query_windows start_date end_date step = (start_date, b) :: rest) ∧
  Forall (fun c => c.1 <= c.2 ∧ c.2 <= end_date ∧ c.2 - c.1 < step)
         (query_windows start_date end_date step) ∧
  (∀ i c1 c2, query_windows start_date end_date step !! i = Some c1 →
              query_windows start_date end_date step !! S i = Some c2 →
              c2.1 = c1.2 + 1) ∧
  StronglySorted (fun c1 c2 => c1.2 < c2.1) (query_windows start_date end_date step) ∧
  (∀ t, start_date <= t < end_date →
        Exists (fun c => c.1 <= t <= c.2) (query_windows start_date end_date step)) ∧
  ∃ c, last (query_windows start_date end_date step) = Some c ∧
       end_date - 1 <= c.2 <= end_date.
Proof.
  intros Hstep Hlt. unfold query_windows.
  assert (0 <= (end_date - start_date) / step) as Hdiv by (apply Z.div_pos; lia).
  destruct (windows_from_spec (Z.to_nat ((end_date - start_date) / step + 1))
              end_date step start_date Hstep)
    as (Hall & Hsort & Hcover & Hfirst & Hnext & Hlast); [lia|].
  split; [by apply Hfirst|]. split.
  { eapply Forall_impl; [exact Hall|]. simpl. intros c Hc. lia. }
  split; [exact Hnext|]. split; [exact Hsort|]. split; [exact Hcover|].
  destruct (Hlast Hlt) as (c & Hc & Hend). exists c. split; [exact Hc|].
  split; [exact Hend|].
  apply last_Some in Hc as (l' & E). rewrite E in Hall.
  rewrite Forall_forall in Hall. specialize (Hall c).
  cbv beta in Hall. apply Hall. apply elem_of_app. right. constructor.
Qed.

Lemma query_windows_tile_witness :
  (∃ b rest, query_windows start_date end_date step = (start_date, b) :: rest) ∧
  Forall (fun c => c.1 <= c.2 ∧ c.2 <= end_date ∧ c.2 - c.1 < step)
         (query_windows start_date end_date step) ∧
  (∀ i c1 c2, query_windows start_date end_date step !! i = Some c1 →
              query_windows start_date end_date step !! S i = Some c2 →
              c2.1 = c1.2 + 1) ∧
  StronglySorted (fun c1 c2 => c1.2 < c2.1) (query_windows start_date end_date step) ∧
  (∀ t, start_date <= t < end_date →
        Exists (fun c => c.1 <= t <= c.2) (query_windows start_date end_date step)) ∧
  ∃ c, last (query_windows start_date end_date step) = Some c ∧
       end_date - 1 <= c.2 <= end_date.
Proof.
  apply (query_windows_tile start_date end_date step); reflexivity.
Defined.

(** The run of the source: 28 requests, the last one from day 405 to
    [end_date] itself. *)
Example query_windows_of_the_run :
  length (query_windows start_date end_date step) = 28%nat ∧
  last (query_windows start_date end_date step) = Some (405 * 86400, end_date).
Proof. split; vm_compute; reflexivity. Qed.

(** When the period is a whole number of steps, the loop stops one second
    short: [end_date] itself is in no window. *)
Example end_date_on_a_boundary :
  query_windows 0 (30 * 86400) step =
    [(0, 15 * 86400 - 1); (15 * 86400, 30 * 86400 - 1)].
Proof. vm_compute. reflexivity. Qed.

End Ingestion.

(** ** The steps in sequence: [steady_state_extraction] and the pipeline *)

Module Pipeline.

Import RangeValidation SteadyState Filtering.

Section Steps.

(** [DataFrame.sort_values(by=...)] on the index label (line 541; the frame
    arrives with its index named [dataTime]).  pandas sorts with its default
    quicksort: the rows come back ordered by label, rows of equal label in
    an order of numpy's choosing. *)
Variable sort_values_by_time : list Row → list Row.

(** [Series.ewm(alpha=alpha).mean()] on a column whose cells may be missing. *)
Variable ewm_mean : Q → list cell → list cell.

(** [AgglomerativeClustering(...).fit_predict(window.reshape(-1, 1))];
    [None] where it raises. *)
Variable fit_predict : Q → list cell → option (list nat).

(** The residual of lines 618-626. *)
Variable reconstruction_error_pca : DataFrame → option (list Q).

(** The step (lines 538-599).  [updated_df['ME SHAFT POWER']] raises a
    KeyError without the column, and the boolean mask of line 589 must have
    one entry per row. *)
Definition steady_state_extraction (updated_df : DataFrame) : option DataFrame :=
  let sorted := sort_values_by_time (rows updated_df) in
  if bool_decide (shaft_power ∈ columns updated_df) then
    match steady_state_extraction_core_on ewm_mean fit_predict
            (map (get shaft_power) sorted) 700 0.2 20 1 with
    | Some labels_me_load =>
        if (length labels_me_load =? length sorted)%nat then
          Some (mkFrame (columns updated_df)
                  (boolean_index (map (fun l => negb (l =? 0)%nat) labels_me_load) sorted))
        else None
    | None => None
    end
  else None.

(** Lines 1011-1013 of the pipeline: validate, segment, filter. *)
Definition filtered_df (updated_df : DataFrame) : option DataFrame :=
  match preprocess_remove_sensor_errors updated_df with
  | Some (cleaned, _, _) =>
      match steady_state_extraction cleaned with
      | Some steady_df => further_filtering reconstruction_error_pca steady_df
      | None => None
      end
  | None => None
  end.

(** What the proofs use of the two pandas calls: sorting rearranges the rows
    and smoothing keeps the length of the series. *)
Hypothesis sort_values_perm : ∀ l, sort_values_by_time l ≡ₚ l.

Hypothesis ewm_mean_length :
  ∀ alpha series, length (ewm_mean alpha series) = length series.

Lemma boolean_index_none {A : Type} (n : nat) (l : list A) :
  boolean_index (map (fun k => negb (k =? 0)%nat) (repeat 0%nat n)) l = [].
Proof.
  revert l. induction n as [|n IH]; intros [|x l]; simpl; try reflexivity.
  apply IH.
Qed.

(** X10.  A frame with fewer than 20 rows has no steady row.  No window of
    20 samples fits, the clustering is never called, every label is 0, and
    the step returns the columns with no row at all, whatever the shaft power
    was. *)
Theorem short_frame_has_no_steady_rows (updated_df : DataFrame) :
  shaft_power ∈ columns updated_df →
  (length (rows updated_df) < 20)%nat →
  steady_state_extraction updated_df = Some (mkFrame (columns updated_df) []).
Proof.
  intros Hcol Hshort. unfold steady_state_extraction. cbv zeta.
  rewrite (bool_decide_eq_true_2 _ Hcol).
  assert (length (ewm_mean 0.2 (map (get shaft_power)
                                    (sort_values_by_time (rows updated_df)))) =
          length (rows updated_df)) as Hlen.
  { by rewrite ewm_mean_length, length_map, (Permutation_length (sort_values_perm _)). }
  rewrite short_series_all_zero by (rewrite ?Hlen; lia).
  rewrite repeat_length, Hlen, (Permutation_length (sort_values_perm _)), Nat.eqb_refl.
  by rewrite boolean_index_none.
Qed.

Lemma steady_state_extraction_rows (updated_df steady_df : DataFrame) :
  steady_state_extraction updated_df = Some steady_df →
  columns steady_df = columns updated_df ∧
  ∀ r, r ∈ rows steady_df → r ∈ rows updated_df.
Proof.
  unfold steady_state_extraction. cbv zeta. intros Hrun.
  repeat case_match; try discriminate.
  apply (inj Some) in Hrun. subst steady_df. cbn [columns rows].
  split; [reflexivity|]. intros r Hr.
  apply boolean_index_elem in Hr. by rewrite sort_values_perm in Hr.
Qed.

Lemma further_filtering_rows (steady_df out : DataFrame) :
  further_filtering reconstruction_error_pca steady_df = Some out →
  columns out = columns steady_df ∧
  ∀ r, r ∈ rows out → r ∈ rows steady_df ∧ plausible (columns steady_df) r = true.
Proof.
  unfold further_filtering. intros Hrun.
  repeat case_match; try discriminate.
  apply (inj Some) in Hrun. subst out. cbn [columns rows].
  split; [reflexivity|]. intros r Hr.
  apply boolean_index_elem in Hr. unfold operational_batch in Hr. cbn [rows] in Hr.
  rewrite operational_rows_filter in Hr.
  apply list_elem_of_In, List.filter_In in Hr as [Hr Hp].
  split; [by apply list_elem_of_In|exact Hp].
Qed.

Lemma complete_get (cols : list string) (r : Row) (col : string) :
  complete cols r = true → col ∈ cols → ∃ v, get col r = Some v.
Proof.
  unfold complete. rewrite forallb_forall. intros Hall Hcol.
  apply list_elem_of_In, Hall in Hcol.
  destruct (get col r) as [v|]; [by exists v|discriminate].
Qed.

Lemma above_get (thr : Q) (r : Row) (col : string) (v : Q) :
  above thr (get col r) = true → get col r = Some v → thr < v.
Proof. intros Ha Hv. rewrite Hv in Ha. by apply Qltb_lt. Qed.

Lemma shaft_power_range : (shaft_power, (0, 9000)) ∈ range_dict.
Proof. apply list_elem_of_lookup. exists 29%nat. reflexivity. Qed.

Lemma cyl1_temp_range : (cyl1_temp, (0.1, 600)) ∈ range_dict.
Proof. apply list_elem_of_lookup. exists 2%nat. reflexivity. Qed.

(** The three steps over any mapping of ranges. *)
Lemma filtered_rows (rd : list (string * (Q * Q)))
    (updated_df cleaned steady_df out : DataFrame) (log : list (string * nat)) (total : nat) :
  NoDup rd.*1 →
  validate_loop rd updated_df [] 0%nat = Some (cleaned, log, total) →
  steady_state_extraction cleaned = Some steady_df →
  further_filtering reconstruction_error_pca steady_df = Some out →
  columns out = columns updated_df ∧
  ∀ r, r ∈ rows out →
    ∃ r0, r0 ∈ rows updated_df ∧ time r = time r0 ∧
      (∀ col, get col r = get col r0) ∧
      (∀ col, col ∈ columns updated_df → get col r ≠ None) ∧
      (∀ col lo hi, (col, (lo, hi)) ∈ rd →
         ∃ v, get col r = Some v ∧ lo <= v <= hi) ∧
      above power_thr (get shaft_power r) = true ∧
      above cyl1_temp_thr (get cyl1_temp r) = true.
Proof.
  intros Hnd Hval Hsteady Hrun.
  pose proof (validate_loop_Some_channels _ _ _ _ _ Hval) as Hch.
  destruct (validate_loop_rows rd updated_df [] 0%nat Hch) as (log' & total' & Hrows).
  rewrite Hrows in Hval. apply (inj Some) in Hval.
  apply (f_equal fst) in Hval. apply (f_equal fst) in Hval. cbn [fst] in Hval.
  clear Hrows. subst cleaned.
  apply steady_state_extraction_rows in Hsteady as [Hcols1 Hsub1].
  cbn [columns rows] in Hcols1, Hsub1.
  apply further_filtering_rows in Hrun as [Hcols2 Hsub2].
  rewrite Hcols1 in Hcols2, Hsub2.
  split; [exact Hcols2|]. intros r Hr.
  destruct (Hsub2 r Hr) as [Hr1 Hplausible].
  apply Hsub1, list_elem_of_fmap in Hr1 as (r0 & -> & Hr0).
  unfold plausible in Hplausible.
  apply andb_true_iff in Hplausible as [Hplausible Hcomplete].
  apply andb_true_iff in Hplausible as [Hpower Htemp].
  assert (∀ col lo hi, (col, (lo, hi)) ∈ rd →
            ∃ v, get col (clip_all rd r0) = Some v ∧ get col r0 = Some v ∧
                 lo <= v <= hi) as Hrange.
  { intros col lo hi Hin.
    destruct (complete_get _ _ col Hcomplete) as [v Hv].
    { apply Hch. apply list_elem_of_fmap. by exists (col, (lo, hi)). }
    exists v. split; [exact Hv|].
    rewrite (get_clip_all_in col lo hi rd r0 Hnd Hin) in Hv.
    destruct (out_of_range lo hi (get col r0)) eqn:Hoor; [discriminate|].
    split; [exact Hv|]. rewrite Hv in Hoor. by apply out_of_range_false_iff. }
  exists r0. split; [exact Hr0|]. split; [apply time_clip_all|].
  split; [|split; [|split; [|split; [exact Hpower|exact Htemp]]]].
  - intros col. destruct (decide (col ∈ rd.*1)) as [Hin | Hout].
    + apply list_elem_of_fmap in Hin as ([c [lo hi]] & -> & Hin). cbn [fst].
      destruct (Hrange c lo hi Hin) as (v & -> & -> & _). reflexivity.
    + by apply get_clip_all_other.
  - intros col Hcol. destruct (complete_get _ _ col Hcomplete Hcol) as [v ->].
    discriminate.
  - intros col lo hi Hin. destruct (Hrange col lo hi Hin) as (v & Hv & _ & Hb).
    by exists v.
Qed.

(** X11.  What reaches the scaler.  When the three steps return, the frame
    has the columns it came with, and every row of it is a row of the input
    of which no cell was replaced: all its cells are as they came, none is
    missing, every validated channel reads inside its physical range, the
    shaft power lies in (3500, 9000] and the cylinder-1 exhaust temperature
    in (260, 600]. *)
Theorem training_rows_are_validated (updated_df out : DataFrame) :
  filtered_df updated_df = Some out →
  columns out = columns updated_df ∧
  ∀ r, r ∈ rows out →
    ∃ r0, r0 ∈ rows updated_df ∧ time r = time r0 ∧
      (∀ col, get col r = get col r0) ∧
      (∀ col, col ∈ columns updated_df → get col r ≠ None) ∧
      (∀ col lo hi, (col, (lo, hi)) ∈ range_dict →
         ∃ v, get col r = Some v ∧ lo <= v <= hi) ∧
      (∃ p, get shaft_power r = Some p ∧ 3500 < p ∧ p <= 9000) ∧
      (∃ t, get cyl1_temp r = Some t ∧ 260 < t ∧ t <= 600).
Proof.
  unfold filtered_df, preprocess_remove_sensor_errors.
  pose proof range_dict_NoDup as Hnd.
  pose proof shaft_power_range as Hp_in. pose proof cyl1_temp_range as Ht_in.
  revert Hnd Hp_in Ht_in. generalize range_dict as rd. intros rd Hnd Hp_in Ht_in Hrun.
  destruct (validate_loop rd updated_df [] 0%nat) as [[[cleaned log] total]|] eqn:Hval;
    [|discriminate].
  destruct (steady_state_extraction cleaned) as [steady_df|] eqn:Hsteady; [|discriminate].
  destruct (filtered_rows rd _ _ _ _ _ _ Hnd Hval Hsteady Hrun) as [Hcols Hrows].
  split; [exact Hcols|]. intros r Hr.
  destruct (Hrows r Hr) as (r0 & Hr0 & Htime & Hsame & Hfull & Hrange & Hpower & Htemp).
  exists r0. repeat (split; [assumption|]).
  split.
  - destruct (Hrange _ _ _ Hp_in) as (p & Hp & _ & Hhi).
    exists p. split; [exact Hp|]. split; [|exact Hhi].
    exact (above_get power_thr _ _ _ Hpower Hp).
  - destruct (Hrange _ _ _ Ht_in) as (t & Ht & _ & Hhi).
    exists t. split; [exact Ht|]. split; [|exact Hhi].
    exact (above_get cyl1_temp_thr _ _ _ Htemp Ht).
Qed.

End Steps.

(** *** Running the steps

    The sort is the insertion sort of the preprocessor.  The smoothing is
    pandas' adjusted mean with [ignore_na=False] in exact arithmetic: the
    weights decay with the position, a missing reading adds nothing and the
    mean so far is repeated (NaN before the first reading).  The clustering
    refuses a window with a missing reading or fewer than two samples, and
    is otherwise the leader clustering of [SteadyState]. *)

Fixpoint ewm_cells_from (alpha num den : Q) (xs : list cell) : list cell :=
  match xs with
  | [] => []
  | c :: xs' =>
      let num' := Qred (match c with
                        | Some x => x + (1 - alpha) * num
                        | None => (1 - alpha) * num
                        end) in
      let den' := Qred (match c with
                        | Some _ => 1 + (1 - alpha) * den
                        | None => (1 - alpha) * den
                        end) in
      (if Qeq_bool den' 0 then None else Some (Qred (num' / den')))
        :: ewm_cells_from alpha num' den' xs'
  end.

Definition ewm_cells (alpha : Q) (series : list cell) : list cell :=
  ewm_cells_from alpha 0 0 series.

Definition cluster_cells (thr : Q) (window : list cell) : option (list nat) :=
  match mapM id window with
  | Some xs => if (length xs <? 2)%nat then None else Some (leader_clustering thr xs)
  | None => None
  end.

Lemma ewm_cells_from_length (alpha num den : Q) (xs : list cell) :
  length (ewm_cells_from alpha num den xs) = length xs.
Proof.
  revert num den. induction xs as [|c xs IH]; intros num den; [reflexivity|].
  cbn [ewm_cells_from length]. by rewrite IH.
Qed.

Lemma ewm_cells_length (alpha : Q) (series : list cell) :
  length (ewm_cells alpha series) = length series.
Proof. apply ewm_cells_from_length. Qed.

Lemma insert_by_time_perm (r : Row) (l : list Row) :
  Preprocessor.insert_by_time r l ≡ₚ r :: l.
Proof.
  induction l as [|x l IH]; simpl; [reflexivity|].
  destruct (time r <=? time x)%Z; [reflexivity|].
  rewrite IH. apply Permutation_swap.
Qed.

Lemma sort_index_perm (l : list Row) : Preprocessor.sort_index l ≡ₚ l.
Proof.
  unfold Preprocessor.sort_index. induction l as [|x l IH]; simpl; [reflexivity|].
  by rewrite insert_by_time_perm, IH.
Qed.

Lemma short_frame_has_no_steady_rows_witness :
  steady_state_extraction Preprocessor.sort_index ewm_cells cluster_cells small_frame =
  Some (mkFrame (columns small_frame) []).
Proof.
  apply (short_frame_has_no_steady_rows Preprocessor.sort_index ewm_cells cluster_cells
           sort_index_perm ewm_cells_length small_frame).
  - apply (bool_decide_unpack _). vm_compute. exact I.
  - vm_compute. lia.
Defined.

(** Twenty rows at 5-minute spacing and a steady 4000 kW.  The first
    nineteen carry the shaft power only; the last carries every channel, at
    the middle of its range. *)
Definition power_row (t : Z) (power : Q) : Row :=
  mkRow t {[ shaft_power := Some power ]}.

Definition voyage_frame : DataFrame :=
  mkFrame channels
    (map (fun k => power_row (300 * Z.of_nat k) 4000) (seq 0 19) ++ [full_row 5700 4000]).

Definition voyage_filtered : DataFrame :=
  mkFrame channels [full_row 5700 4000].

Lemma training_rows_are_validated_witness :
  columns voyage_filtered = columns voyage_frame ∧
  ∀ r, r ∈ rows voyage_filtered →
    ∃ r0, r0 ∈ rows voyage_frame ∧ time r = time r0 ∧
      (∀ col, get col r = get col r0) ∧
      (∀ col, col ∈ columns voyage_frame → get col r ≠ None) ∧
      (∀ col lo hi, (col, (lo, hi)) ∈ range_dict →
         ∃ v, get col r = Some v ∧ lo <= v <= hi) ∧
      (∃ p, get shaft_power r = Some p ∧ 3500 < p ∧ p <= 9000) ∧
      (∃ t, get cyl1_temp r = Some t ∧ 260 < t ∧ t <= 600).
Proof.
  apply (training_rows_are_validated Preprocessor.sort_index ewm_cells cluster_cells
           exact_rebuild sort_index_perm voyage_frame voyage_filtered).
  vm_compute. reflexivity.
Defined.

End Pipeline.
